(** * elysia-better-session: session lifecycle, cookie codec, memory adapter

    A shallow embedding of [src/cookie.ts], [src/plugin.ts] and
    [src/adapters/memory.ts], with the properties of the specification
    stated over it.

    Conventions.
    - A JS string is a [string]; the cookie header of a request is a byte
      string (one code unit per byte).
    - A JS number that holds a time or a counter is a [Z] or a [nat].
    - [null] / [undefined] is [None].
    - JS built-ins whose text is not part of the repository
      ([decodeURIComponent], [encodeURIComponent], [Date.prototype.toUTCString])
      are parameters: Section variables, or fields of [Plugin.Host].
    - [Date.now()] and [generateId()] are read from streams indexed by the
      number of reads made so far, so that successive calls may differ. *)

From Stdlib Require Import ZArith Lia Bool Ascii.
From Stdlib Require Import DecimalString.
From stdpp Require Import gmap strings list fin_maps.

Set Warnings "-register-all".

(** ** JavaScript string primitives used by the sources *)

Module JsString.

(** [s.split(sep)] for a one-character separator. *)
Fixpoint split (sep : ascii) (s : string) : list string :=
  match s with
  | EmptyString => [EmptyString]
  | String c s' =>
      if Ascii.eqb c sep then EmptyString :: split sep s'
      else match split sep s' with
           | h :: t => String c h :: t
           | [] => [String c EmptyString]
           end
  end.

(** [s.indexOf(c)]: the first position of [c], or [-1]. *)
Fixpoint indexOf (c : ascii) (s : string) : Z :=
  match s with
  | EmptyString => (-1)%Z
  | String d s' =>
      if Ascii.eqb d c then 0%Z
      else let i := indexOf c s' in
           if (i <? 0)%Z then (-1)%Z else (i + 1)%Z
  end.

(** [s.slice(0, n)] for [0 <= n]. *)
Fixpoint take (n : nat) (s : string) : string :=
  match n, s with
  | S n', String c s' => String c (take n' s')
  | _, _ => EmptyString
  end.

(** [s.slice(n)] for [0 <= n]. *)
Fixpoint drop (n : nat) (s : string) : string :=
  match n, s with
  | S n', String _ s' => drop n' s'
  | _, _ => s
  end.

(** White space and line terminators of ECMAScript among the code units
    below 256: TAB, LF, VT, FF, CR, SP and NBSP. *)
Definition isWhiteSpace (c : ascii) : bool :=
  let n := nat_of_ascii c in
  ((9 <=? n) && (n <=? 13) || (n =? 32) || (n =? 160))%nat.

Fixpoint trimStart (s : string) : string :=
  match s with
  | String c s' => if isWhiteSpace c then trimStart s' else s
  | EmptyString => EmptyString
  end.

Fixpoint trimEnd (s : string) : string :=
  match s with
  | EmptyString => EmptyString
  | String c s' =>
      let t := trimEnd s' in
      if isWhiteSpace c && String.eqb t EmptyString then EmptyString
      else String c t
  end.

(** [s.trim()]. *)
Definition trim (s : string) : string := trimEnd (trimStart s).

(** Truthiness of a string: only the empty string is falsy. *)
Definition truthy (s : string) : bool := negb (String.eqb s EmptyString).

(** [segments.join(sep)]. *)
Fixpoint join (sep : string) (l : list string) : string :=
  match l with
  | [] => EmptyString
  | [x] => x
  | x :: rest => x +:+ sep +:+ join sep rest
  end.

(** Decimal rendering of an integral number, as in a template literal. *)
Definition ofZ (z : Z) : string := NilZero.string_of_int (Z.to_int z).

End JsString.

(** ** src/cookie.ts *)

Module Cookie.

Import JsString.

(** A plain object literal [{}] used as a dictionary of strings: its own
    properties.  The assignment [o[k] = v] creates or overwrites the own
    property [k], except for the key [__proto__]: that name is an accessor
    inherited from [Object.prototype], whose setter runs instead and
    ignores a value that is neither an object nor [null] (ECMA-262,
    [set Object.prototype.__proto__], step 3), so that no own property is
    created for a string value. *)
Definition proto_key : string := "__proto__".

Definition assignProp (o : gmap string string) (k v : string)
  : gmap string string :=
  if String.eqb k proto_key then o else <[k := v]> o.

Section ParseCookies.

(** [decodeURIComponent]; [None] stands for the URIError it throws on a
    malformed escape sequence. *)
Variable decodeURIComponent : string -> option string.

(** The [try { ... } catch { ... }] of the loop body. *)
Definition decodeOrRaw (rawValue : string) : string :=
  match decodeURIComponent rawValue with
  | Some v => v
  | None => rawValue
  end.

(** One iteration of [for (const pair of pairs)]. *)
Definition parsePair (result : gmap string string) (pair : string)
  : gmap string string :=
  let index := indexOf "=" pair in
  if (index <? 0)%Z then result
  else
    let rawName := trim (take (Z.to_nat index) pair) in
    let rawValue := trim (drop (Z.to_nat (index + 1)) pair) in
    if negb (truthy rawName) then result
    else assignProp result rawName (decodeOrRaw rawValue).

Definition parseCookies (cookieHeader : option string)
  : gmap string string :=
  match cookieHeader with
  | None => ∅
  | Some h =>
      if negb (truthy h) then ∅
      else fold_left parsePair (split ";" h) ∅
  end.

End ParseCookies.

(** *** The mapping as the specification words it

    Split the header on [;], split each pair on its first [=], trim name
    and value, decode the value or keep it raw, skip empty names; the
    last occurrence of a name wins. *)

(** Split on the first occurrence of [c]; [None] when there is none. *)
Fixpoint splitFirst (c : ascii) (s : string) : option (string * string) :=
  match s with
  | EmptyString => None
  | String d s' =>
      if Ascii.eqb d c then Some (EmptyString, s')
      else match splitFirst c s' with
           | Some (a, b) => Some (String d a, b)
           | None => None
           end
  end.

Section ParseCookiesSpec.

Variable decodeURIComponent : string -> option string.

Definition specEntry (pair : string) : option (string * string) :=
  match splitFirst "=" pair with
  | None => None
  | Some (n, v) =>
      if String.eqb (trim n) EmptyString then None
      else Some (trim n, decodeOrRaw decodeURIComponent (trim v))
  end.

Definition specEntries (header : string) : list (string * string) :=
  omap specEntry (split ";" header).

(** The value of the last entry named [k]. *)
Fixpoint lastValue (k : string) (es : list (string * string))
  : option string :=
  match es with
  | [] => None
  | (n, v) :: rest =>
      match lastValue k rest with
      | Some v' => Some v'
      | None => if String.eqb n k then Some v else None
      end
  end.

Definition parseCookies_spec (cookieHeader : option string) (k : string)
  : option string :=
  match cookieHeader with
  | None => None
  | Some h => lastValue k (specEntries h)
  end.

End ParseCookiesSpec.

(** *** Serialisation *)

Inductive SameSite : Type := strict | lax | none.

Definition formatSameSite (sameSite : SameSite) : string :=
  match sameSite with
  | strict => "Strict"
  | none => "None"
  | lax => "Lax"
  end.

(** [SessionCookieOptions] of [types.ts]: every field optional. *)
Record SessionCookieOptions : Type := {
  opt_name : option string;
  opt_path : option string;
  opt_domain : option string;
  opt_secure : option bool;
  opt_httpOnly : option bool;
  opt_sameSite : option SameSite
}.

(** The options after [normalizeCookieOptions]: only [domain] stays
    optional. *)
Record CookieOptions : Type := {
  name : string;
  path : string;
  domain : option string;
  secure : bool;
  httpOnly : bool;
  sameSite : SameSite
}.

Definition defaultCookie : CookieOptions :=
  {| name := "sid"; path := "/"; domain := None;
     secure := false; httpOnly := true; sameSite := lax |}.

Definition normalizeCookieOptions (cookie : option SessionCookieOptions)
  : CookieOptions :=
  {| name := default (name defaultCookie) (cookie ≫= opt_name);
     path := default (path defaultCookie) (cookie ≫= opt_path);
     domain := cookie ≫= opt_domain;
     secure := default (secure defaultCookie) (cookie ≫= opt_secure);
     httpOnly := default (httpOnly defaultCookie) (cookie ≫= opt_httpOnly);
     sameSite := default (sameSite defaultCookie) (cookie ≫= opt_sameSite) |}.

Section Serialize.

Variable encodeURIComponent : string -> string.
(** [new Date(t).toUTCString()]. *)
Variable toUTCString : Z -> string.

(** [Math.max(0, Math.floor((expiresAt - Date.now()) / 1000))], with
    [now] the value read from [Date.now()]. *)
Definition maxAge (expiresAt now : Z) : Z :=
  Z.max 0 ((expiresAt - now) / 1000).

Definition maxAgeSegment (expiresAt now : Z) : string :=
  "Max-Age=" +:+ ofZ (maxAge expiresAt now).

(** The [segments] array of [withCookieAttributes]. *)
Definition cookieSegments (name value : string) (expiresAt : Z)
    (cookie : CookieOptions) (now : Z) : list string :=
  let segments := [name +:+ "=" +:+ encodeURIComponent value] in
  let segments := segments ++ ["Path=" +:+ path cookie] in
  let segments :=
    segments ++ ["SameSite=" +:+ formatSameSite (sameSite cookie)] in
  let segments := segments ++ [maxAgeSegment expiresAt now] in
  let segments := segments ++ ["Expires=" +:+ toUTCString expiresAt] in
  let segments :=
    if httpOnly cookie then segments ++ ["HttpOnly"] else segments in
  let segments :=
    if secure cookie then segments ++ ["Secure"] else segments in
  let segments :=
    match domain cookie with
    | Some d => if truthy d then segments ++ ["Domain=" +:+ d] else segments
    | None => segments
    end in
  segments.

Definition withCookieAttributes (name value : string) (expiresAt : Z)
    (cookie : CookieOptions) (now : Z) : string :=
  join "; " (cookieSegments name value expiresAt cookie now).

Definition serializeSessionCookie (name value : string) (expiresAt : Z)
    (cookie : CookieOptions) (now : Z) : string :=
  withCookieAttributes name value expiresAt cookie now.

Definition serializeExpiredCookie (name : string) (cookie : CookieOptions)
    (now : Z) : string :=
  withCookieAttributes name EmptyString 0 cookie now.

End Serialize.

End Cookie.

(** ** src/types.ts *)

Module Types.

Inductive JsonValue : Type :=
| JNull
| JBool (b : bool)
| JNumber (n : Z)
| JString (s : string)
| JArray (items : list JsonValue)
| JObject (fields : gmap string JsonValue).

Abbreviation JsonObject := (gmap string JsonValue).

(** [StoredSession]: what an adapter persists, as a value. *)
Record StoredSession : Type := {
  data : JsonObject;
  expiresAt : Z
}.

(** [SessionStoreAdapter]: the persistence contract, over the adapter's
    own store.  [adapter_get] may change the store (an adapter reclaims an
    expired entry it meets).  The operations are taken to complete; a
    storage failure is outside this model. *)
Record SessionStoreAdapter (Store : Type) : Type := {
  adapter_get : string -> Store -> option StoredSession * Store;
  adapter_set : string -> StoredSession -> Store -> Store;
  adapter_delete : string -> Store -> Store
}.
Arguments adapter_get {Store}.
Arguments adapter_set {Store}.
Arguments adapter_delete {Store}.

End Types.

(** ** src/adapters/memory.ts

    The adapter keeps [StoredSession] objects in a [Map] and hands objects
    to its caller, so objects and references to them are explicit here: a
    heap of session objects, each pointing to its [data] object.  What a
    [data] object holds under a key is a JSON tree; a write inside a nested
    value is the write of the key that holds it. *)

Module Memory.

Import Types.

Definition loc : Type := positive.

(** A [StoredSession] object: a reference to its [data] object, and its
    [expiresAt]. *)
Record SessionObject : Type := {
  dataRef : loc;
  expires : Z
}.

Record Heap : Type := {
  sessionObjects : gmap loc SessionObject;
  dataObjects : gmap loc JsonObject
}.

(** The value held by the session object at [r]. *)
Definition readSession (h : Heap) (r : loc) : option StoredSession :=
  so ← sessionObjects h !! r;
  o ← dataObjects h !! dataRef so;
  Some {| data := o; expiresAt := expires so |}.

(** [{ data: {...o}, expiresAt: e }] built by a caller: two new objects. *)
Definition allocSession (v : StoredSession) (h : Heap) : loc * Heap :=
  let d := fresh (dom (dataObjects h)) in
  let r := fresh (dom (sessionObjects h)) in
  (r, {| sessionObjects :=
           <[r := {| dataRef := d; expires := expiresAt v |}]>
             (sessionObjects h);
         dataObjects := <[d := data v]> (dataObjects h) |}).

(** [defaultClone]: [structuredClone(value)] (or the JSON round trip) of a
    session object copies the object and, below it, its [data] object. *)
Definition defaultClone (h : Heap) (r : loc) : option (loc * Heap) :=
  v ← readSession h r;
  Some (allocSession v h).

(** Two other values of the [clone] option, for comparison:
    [clone: (value) => value] and [clone: (value) => ({ ...value })]. *)
Definition aliasClone (h : Heap) (r : loc) : option (loc * Heap) :=
  Some (r, h).

Definition shallowClone (h : Heap) (r : loc) : option (loc * Heap) :=
  so ← sessionObjects h !! r;
  let r' := fresh (dom (sessionObjects h)) in
  Some (r', {| sessionObjects := <[r' := so]> (sessionObjects h);
               dataObjects := dataObjects h |}).

(** The adapter's closure: the heap and the [sessions] map, which holds
    references. *)
Record MemoryStore : Type := {
  heap : Heap;
  sessions : gmap string loc
}.

Section Adapter.

(** [options.clone ?? defaultClone]; [None] for a reference to no
    object, which a JS program cannot hold. *)
Variable clone : Heap -> loc -> option (loc * Heap).

(** [get(id)]; [t] is what [now()] returns if it is called. *)
Definition get (t : Z) (id : string) (m : MemoryStore)
  : option loc * MemoryStore :=
  match sessions m !! id with
  | None => (None, m)
  | Some existing =>
      match sessionObjects (heap m) !! existing with
      | None => (None, m)
      | Some so =>
          if (expires so <=? t)%Z
          then (None, {| heap := heap m;
                         sessions := delete id (sessions m) |})
          else match clone (heap m) existing with
               | Some (r, h') =>
                   (Some r, {| heap := h'; sessions := sessions m |})
               | None => (None, m)
               end
      end
  end.

(** [set(id, session)]. *)
Definition set (id : string) (session : loc) (m : MemoryStore)
  : MemoryStore :=
  match clone (heap m) session with
  | Some (r, h') => {| heap := h'; sessions := <[id := r]> (sessions m) |}
  | None => m
  end.

(** [delete(id)]. *)
Definition delete (id : string) (m : MemoryStore) : MemoryStore :=
  {| heap := heap m; sessions := base.delete id (sessions m) |}.

(** What a caller reads through the reference [get] gave it. *)
Definition observe (res : option loc * MemoryStore)
  : option StoredSession :=
  r ← res.1; readSession (heap res.2) r.

End Adapter.

(** A mutation a caller makes through a session object it holds. *)
Inductive Mutation : Type :=
| MSetExpiresAt (e : Z)
| MSetField (key : string) (value : JsonValue)
| MDeleteField (key : string)
| MReplaceData (next : JsonObject).

(** [record.expiresAt = e], [record.data[key] = value],
    [delete record.data[key]], [record.data = next] with [next] a new
    object. *)
Definition mutate (r : loc) (mu : Mutation) (h : Heap) : Heap :=
  match sessionObjects h !! r with
  | None => h
  | Some so =>
      match mu with
      | MSetExpiresAt e =>
          {| sessionObjects :=
               <[r := {| dataRef := dataRef so; expires := e |}]>
                 (sessionObjects h);
             dataObjects := dataObjects h |}
      | MSetField key value =>
          {| sessionObjects := sessionObjects h;
             dataObjects :=
               alter (fun o => <[key := value]> o) (dataRef so)
                 (dataObjects h) |}
      | MDeleteField key =>
          {| sessionObjects := sessionObjects h;
             dataObjects :=
               alter (fun o => base.delete key o) (dataRef so)
                 (dataObjects h) |}
      | MReplaceData next =>
          let d := fresh (dom (dataObjects h)) in
          {| sessionObjects :=
               <[r := {| dataRef := d; expires := expires so |}]>
                 (sessionObjects h);
             dataObjects := <[d := next]> (dataObjects h) |}
      end
  end.

Definition mutateAll (r : loc) (mus : list Mutation) (h : Heap) : Heap :=
  fold_left (fun h mu => mutate r mu h) mus h.

Definition withHeap (h : Heap) (m : MemoryStore) : MemoryStore :=
  {| heap := h; sessions := sessions m |}.

(** The adapter of [createMemorySessionAdapter({ now: () => t })] behind
    the [SessionStoreAdapter] contract, for a caller that passes a newly
    built object to [set] and reads the object [get] gives it. *)
Definition createMemorySessionAdapter (t : Z)
  : SessionStoreAdapter MemoryStore :=
  {| adapter_get := fun id m =>
       let res := get defaultClone t id m in (observe res, res.2);
     adapter_set := fun id v m =>
       let '(r, h) := allocSession v (heap m) in
       set defaultClone id r (withHeap h m);
     adapter_delete := delete |}.

Definition emptyStore : MemoryStore :=
  {| heap := {| sessionObjects := ∅; dataObjects := ∅ |}; sessions := ∅ |}.

(** [kept h r0 so0 o0]: the session object at [r0] and its [data] object
    hold [so0] and [o0]. *)
Definition kept (h : Heap) (r0 : loc) (so0 : SessionObject)
    (o0 : JsonObject) : Prop :=
  sessionObjects h !! r0 = Some so0 /\ dataObjects h !! dataRef so0 = Some o0.

(** [apart h r r0 so0]: the object at [r] is not the one at [r0] and does
    not share its [data] object. *)
Definition apart (h : Heap) (r r0 : loc) (so0 : SessionObject) : Prop :=
  r <> r0 /\
  forall so, sessionObjects h !! r = Some so -> dataRef so <> dataRef so0.

End Memory.

(** ** src/plugin.ts *)

Module Plugin.

Import JsString Types.

(** [HeaderValue = string | string[] | undefined]. *)
Inductive HeaderValue : Type :=
| HUndefined
| HString (s : string)
| HArray (l : list string).

(** Truthiness of a header value: [undefined] and the empty string are
    falsy, an array is truthy. *)
Definition headerTruthy (h : HeaderValue) : bool :=
  match h with
  | HUndefined => false
  | HString s => truthy s
  | HArray _ => true
  end.

(** [appendSetCookie], on the [set-cookie] entry of the headers. *)
Definition appendSetCookie (existing : HeaderValue) (cookieValue : string)
  : HeaderValue :=
  if negb (headerTruthy existing) then HString cookieValue
  else match existing with
       | HArray l => HArray (l ++ [cookieValue])
       | HString s => HArray [s; cookieValue]
       | HUndefined => HString cookieValue
       end.

Inductive PersistMode : Type := auto | manual.

Definition isManual (mode : PersistMode) : bool :=
  match mode with manual => true | auto => false end.

(** The [state] object of one request. *)
Record State : Type := {
  id : option string;
  data : JsonObject;
  expiresAt : Z;
  isNew : bool;
  destroyed : bool;
  revision : nat;
  savedRevision : nat;
  committed : bool
}.

(** [Boolean(x)] for [x : string | null | undefined]. *)
Definition truthyId (x : option string) : bool :=
  match x with
  | Some s => truthy s
  | None => false
  end.

(** A call made on the adapter. *)
Inductive AdapterCall : Type :=
| CallGet (id : string)
| CallSet (id : string) (session : StoredSession)
| CallDelete (id : string).

(** What a request shares with its surroundings: the [set-cookie] entry of
    the response headers, the adapter's store, the log of adapter calls,
    and how many values have been read from [generateId] and [Date.now]. *)
Record Sys (Store : Type) : Type := {
  headers : HeaderValue;
  store : Store;
  calls : list AdapterCall;
  idReads : nat;
  clockReads : nat
}.
Arguments headers {Store}.
Arguments store {Store}.
Arguments calls {Store}.
Arguments idReads {Store}.
Arguments clockReads {Store}.

Record World (Store : Type) : Type := {
  state : State;
  sys : Sys Store
}.
Arguments state {Store}.
Arguments sys {Store}.

(** The plugin options after the defaults of [betterSession]. *)
Record Config (Store : Type) : Type := {
  adapter : SessionStoreAdapter Store;
  ttl : Z;
  rolling : bool;
  createOnRequest : bool;
  cookie : Cookie.CookieOptions;
  generateId : nat -> string;
  initialData : JsonObject
}.
Arguments adapter {Store}.
Arguments ttl {Store}.
Arguments rolling {Store}.
Arguments createOnRequest {Store}.
Arguments cookie {Store}.
Arguments generateId {Store}.
Arguments initialData {Store}.

(** The built-ins of the host. *)
Record Host : Type := {
  dateNow : nat -> Z;
  encodeURIComponent : string -> string;
  toUTCString : Z -> string
}.

(** What a call on the session handle gives back. *)
Inductive Ret : Type :=
| RVoid
| RString (s : string)
| RBool (b : bool)
| RValue (v : option JsonValue)
| RId (i : option string)
| RData (d : JsonObject)
| RThrow (msg : string).

(** A call on the session handle. *)
Inductive Op : Type :=
| OId
| OIsNew
| OData
| OGet (key : string)
| OHas (key : string)
| OSet (key : string) (value : JsonValue)
| OAssign (patch : JsonObject)
| OReplace (next : JsonObject)
| OUpdate (updater : JsonObject -> option JsonObject)
| ODelete (key : string)
| ORegenerate
| ODestroy
| OSave.

Section Request.

Context {Store : Type}.
Variable cfg : Config Store.
Variable host : Host.

(** *** Field updates *)

Definition withHeaders (h : HeaderValue) (s : Sys Store) : Sys Store :=
  {| headers := h; store := store s; calls := calls s;
     idReads := idReads s; clockReads := clockReads s |}.

Definition withState (st : State) (w : World Store) : World Store :=
  {| state := st; sys := sys w |}.

Definition withSys (s : Sys Store) (w : World Store) : World Store :=
  {| state := state w; sys := s |}.

Definition setId (v : option string) (st : State) : State :=
  {| id := v; data := data st; expiresAt := expiresAt st;
     isNew := isNew st; destroyed := destroyed st;
     revision := revision st; savedRevision := savedRevision st;
     committed := committed st |}.

Definition setData (v : JsonObject) (st : State) : State :=
  {| id := id st; data := v; expiresAt := expiresAt st;
     isNew := isNew st; destroyed := destroyed st;
     revision := revision st; savedRevision := savedRevision st;
     committed := committed st |}.

Definition setExpiresAt (v : Z) (st : State) : State :=
  {| id := id st; data := data st; expiresAt := v;
     isNew := isNew st; destroyed := destroyed st;
     revision := revision st; savedRevision := savedRevision st;
     committed := committed st |}.

Definition setIsNew (v : bool) (st : State) : State :=
  {| id := id st; data := data st; expiresAt := expiresAt st;
     isNew := v; destroyed := destroyed st;
     revision := revision st; savedRevision := savedRevision st;
     committed := committed st |}.

Definition setDestroyed (v : bool) (st : State) : State :=
  {| id := id st; data := data st; expiresAt := expiresAt st;
     isNew := isNew st; destroyed := v;
     revision := revision st; savedRevision := savedRevision st;
     committed := committed st |}.

Definition setSavedRevision (v : nat) (st : State) : State :=
  {| id := id st; data := data st; expiresAt := expiresAt st;
     isNew := isNew st; destroyed := destroyed st;
     revision := revision st; savedRevision := v;
     committed := committed st |}.

Definition setCommitted (v : bool) (st : State) : State :=
  {| id := id st; data := data st; expiresAt := expiresAt st;
     isNew := isNew st; destroyed := destroyed st;
     revision := revision st; savedRevision := savedRevision st;
     committed := v |}.

(** *** The surroundings *)

(** [Date.now()]. *)
Definition now (s : Sys Store) : Z * Sys Store :=
  (dateNow host (clockReads s),
   {| headers := headers s; store := store s; calls := calls s;
      idReads := idReads s; clockReads := S (clockReads s) |}).

(** [generateId()]. *)
Definition newId (s : Sys Store) : string * Sys Store :=
  (generateId cfg (idReads s),
   {| headers := headers s; store := store s; calls := calls s;
      idReads := S (idReads s); clockReads := clockReads s |}).

(** [await adapter.get(id)]. *)
Definition adapterGet (i : string) (s : Sys Store)
  : option StoredSession * Sys Store :=
  let '(r, st') := adapter_get (adapter cfg) i (store s) in
  (r, {| headers := headers s; store := st';
         calls := calls s ++ [CallGet i];
         idReads := idReads s; clockReads := clockReads s |}).

(** [await adapter.set(id, session)]. *)
Definition adapterSet (i : string) (r : StoredSession) (s : Sys Store)
  : Sys Store :=
  {| headers := headers s;
     store := adapter_set (adapter cfg) i r (store s);
     calls := calls s ++ [CallSet i r];
     idReads := idReads s; clockReads := clockReads s |}.

(** [await adapter.delete(id)]. *)
Definition adapterDelete (i : string) (s : Sys Store) : Sys Store :=
  {| headers := headers s;
     store := adapter_delete (adapter cfg) i (store s);
     calls := calls s ++ [CallDelete i];
     idReads := idReads s; clockReads := clockReads s |}.

(** The text of the clearing cookie, for a reading [t] of the clock. *)
Definition expiredCookieAt (t : Z) : string :=
  Cookie.serializeExpiredCookie (encodeURIComponent host)
    (toUTCString host) (Cookie.name (cookie cfg)) (cookie cfg) t.

(** The text of the live cookie. *)
Definition sessionCookieAt (i : string) (expires t : Z) : string :=
  Cookie.serializeSessionCookie (encodeURIComponent host)
    (toUTCString host) (Cookie.name (cookie cfg)) i expires (cookie cfg) t.

(** [appendSetCookie(headers, serializeExpiredCookie(cookie.name, cookie))]:
    the cookie text reads the clock. *)
Definition emitExpired (s : Sys Store) : Sys Store :=
  let '(t, s1) := now s in
  withHeaders (appendSetCookie (headers s1) (expiredCookieAt t)) s1.

(** [appendSetCookie(headers, serializeSessionCookie(cookie.name, id,
    state.expiresAt, cookie))]. *)
Definition emitSession (i : string) (expires : Z) (s : Sys Store)
  : Sys Store :=
  let '(t, s1) := now s in
  withHeaders (appendSetCookie (headers s1) (sessionCookieAt i expires t)) s1.

(** *** Session resolution: the body of [resolve] up to [state] *)

Definition resolve (incomingId : option string) (s0 : Sys Store)
  : World Store :=
  let '(t, s1) := now s0 in
  let '(stored, s2) :=
    match incomingId with
    | Some i => if truthy i then adapterGet i s1 else (None, s1)
    | None => (None, s1)
    end in
  match stored with
  | Some r =>
      {| state := {| id := incomingId; data := Types.data r;
                     expiresAt := Types.expiresAt r; isNew := false;
                     destroyed := false; revision := 0;
                     savedRevision := 0; committed := false |};
         sys := s2 |}
  | None =>
      let s3 := if truthyId incomingId then emitExpired s2 else s2 in
      let '(i, s4) :=
        if createOnRequest cfg
        then let '(g, s') := newId s3 in (Some g, s')
        else (None, s3) in
      {| state := {| id := i; data := initialData cfg;
                     expiresAt := t + ttl cfg; isNew := true;
                     destroyed := false; revision := 0;
                     savedRevision := 0; committed := false |};
         sys := s4 |}
  end.

(** *** The closures over [state] *)

Definition ensureId (w : World Store) : string * World Store :=
  if negb (truthyId (id (state w))) then
    let '(g, s') := newId (sys w) in
    (g, {| state := setIsNew true (setId (Some g) (state w)); sys := s' |})
  else (default EmptyString (id (state w)), w).

Definition markDirty (st : State) : State :=
  setCommitted false
    {| id := id st; data := data st; expiresAt := expiresAt st;
       isNew := isNew st; destroyed := destroyed st;
       revision := revision st + 1; savedRevision := savedRevision st;
       committed := committed st |}.

(** [dirty] of [persist]. *)
Definition dirty (st : State) : bool :=
  negb (savedRevision st =? revision st).

(** [shouldWrite] of [persist]. *)
Definition shouldWrite (incomingId : option string) (mode : PersistMode)
    (st : State) : bool :=
  if isNew st
  then createOnRequest cfg || truthyId (id st) || dirty st || isManual mode
  else dirty st || (rolling cfg && truthyId incomingId).

Definition persist (incomingId : option string) (mode : PersistMode)
    (w : World Store) : World Store :=
  if committed (state w) then w
  else if destroyed (state w) then
    let s1 :=
      match id (state w) with
      | Some i => if truthy i then adapterDelete i (sys w) else sys w
      | None => sys w
      end in
    let s2 :=
      if truthyId incomingId || truthyId (id (state w))
      then emitExpired s1 else s1 in
    {| state := setCommitted true
                  (setSavedRevision (revision (state w)) (state w));
       sys := s2 |}
  else if negb (shouldWrite incomingId mode (state w)) then
    withState (setCommitted true (state w)) w
  else
    let '(i, w1) := ensureId w in
    let '(t, s1) := now (sys w1) in
    let st1 := setExpiresAt (t + ttl cfg) (state w1) in
    let toStore :=
      {| Types.data := data st1; Types.expiresAt := expiresAt st1 |} in
    let s2 := adapterSet i toStore s1 in
    let s3 := emitSession i (expiresAt st1) s2 in
    {| state := setCommitted true
                  (setSavedRevision (revision st1) (setIsNew false st1));
       sys := s3 |}.

(** *** The session handle *)

Definition regenerate (w : World Store) : Ret * World Store :=
  if destroyed (state w)
  then (RThrow "Cannot regenerate a destroyed session.", w)
  else
    let previousId := id (state w) in
    let '(nextId, s1) := newId (sys w) in
    let st1 := markDirty (setIsNew true (setId (Some nextId) (state w))) in
    let s2 :=
      match previousId with
      | Some p =>
          if negb (String.eqb p nextId) && truthy p
          then adapterDelete p s1 else s1
      | None => s1
      end in
    (RString nextId, {| state := st1; sys := s2 |}).

Definition destroy (incomingId : option string) (w : World Store)
  : World Store :=
  if destroyed (state w) then w
  else persist incomingId manual
         (withState (markDirty (setDestroyed true (state w))) w).

Definition save (incomingId : option string) (w : World Store)
  : World Store :=
  persist incomingId manual w.

(** One call on the handle. *)
Definition runOp (incomingId : option string) (o : Op) (w : World Store)
  : Ret * World Store :=
  match o with
  | OId => (RId (id (state w)), w)
  | OIsNew => (RBool (isNew (state w)), w)
  | OData => (RData (data (state w)), w)
  | OGet key => (RValue (data (state w) !! key), w)
  | OHas key => (RBool (bool_decide (is_Some (data (state w) !! key))), w)
  | OSet key value =>
      (RVoid,
       withState (markDirty
                    (setData (<[key := value]> (data (state w))) (state w))) w)
  | OAssign patch =>
      (RVoid,
       withState (markDirty
                    (setData (patch ∪ data (state w)) (state w))) w)
  | OReplace next =>
      (RVoid, withState (markDirty (setData next (state w))) w)
  | OUpdate updater =>
      match updater (data (state w)) with
      | Some next =>
          (RVoid, withState (markDirty (setData next (state w))) w)
      | None => (RThrow "updater", w)
      end
  | ODelete key =>
      (RVoid,
       withState (markDirty
                    (setData (delete key (data (state w))) (state w))) w)
  | ORegenerate => regenerate w
  | ODestroy => (RVoid, destroy incomingId w)
  | OSave => (RVoid, save incomingId w)
  end.

(** A handler: the calls it makes on the handle, in order; a call that
    throws is caught and the handler goes on. *)
Fixpoint runHandler (incomingId : option string) (ops : list Op)
    (w : World Store) : list Ret * World Store :=
  match ops with
  | [] => ([], w)
  | o :: rest =>
      let '(r, w1) := runOp incomingId o w in
      let '(rs, w2) := runHandler incomingId rest w1 in
      (r :: rs, w2)
  end.

(** [onAfterHandle]. *)
Definition onAfterHandle (incomingId : option string) (w : World Store)
  : World Store :=
  persist incomingId auto w.

(** One request: [resolve], the handler, [onAfterHandle]. *)
Definition handleRequest (incomingId : option string) (ops : list Op)
    (s0 : Sys Store) : World Store :=
  onAfterHandle incomingId
    (snd (runHandler incomingId ops (resolve incomingId s0))).

End Request.

(** *** Vocabulary of the properties *)

(** A call that only reads the session. *)
Definition isRead (o : Op) : bool :=
  match o with
  | OId | OIsNew | OData | OGet _ | OHas _ => true
  | _ => false
  end.

(** A call that does not mark the session dirty: a read, [save()] or
    [destroy()]. *)
Definition isQuiet (o : Op) : bool :=
  match o with
  | OId | OIsNew | OData | OGet _ | OHas _ | OSave | ODestroy => true
  | _ => false
  end.

(** The request arrived with an id under which the adapter holds a record:
    what [resolve] finds out with [adapter.get]. *)
Definition validIncoming {Store : Type} (cfg : Config Store)
    (incomingId : option string) (s0 : Sys Store) : bool :=
  match incomingId with
  | Some i =>
      truthy i
      && bool_decide (is_Some (adapter_get (adapter cfg) i (store s0)).1)
  | None => false
  end.

(** The write condition as the specification words it. *)
Definition specShouldWrite {Store : Type} (cfg : Config Store)
    (incomingId : option string) (s0 : Sys Store) (mode : PersistMode)
    (st : State) : bool :=
  if isNew st
  then createOnRequest cfg || truthyId (id st)
       || negb (savedRevision st =? revision st) || isManual mode
  else negb (savedRevision st =? revision st)
       || (rolling cfg && validIncoming cfg incomingId s0).

(** The store after [adapter.delete] on each id of a list. *)
Definition deleteAll {Store : Type} (cfg : Config Store) (ids : list string)
    (st : Store) : Store :=
  fold_left (fun st i => adapter_delete (adapter cfg) i st) ids st.

(** The headers after each text of a list has been appended. *)
Definition appendAll (h : HeaderValue) (texts : list string) : HeaderValue :=
  fold_left appendSetCookie texts h.

(** From [s] to [s'] the only effects are calls of [adapter.delete] and
    clearing cookies appended to the headers; no id has been generated. *)
Definition onlyClears {Store : Type} (cfg : Config Store) (host : Host)
    (s s' : Sys Store) : Prop :=
  exists (ds : list string) (ts : list Z),
    calls s' = calls s ++ map CallDelete ds
    /\ store s' = deleteAll cfg ds (store s)
    /\ headers s' = appendAll (headers s) (map (expiredCookieAt cfg host) ts)
    /\ idReads s' = idReads s.

(** What holds of the session of a request that started in [s0]:
    [savedRevision] never exceeds [revision]; and an uncommitted, clean
    session that is not new is the one [resolve] loaded from the store. *)
Definition inv {Store : Type} (cfg : Config Store)
    (incomingId : option string) (s0 : Sys Store) (w : World Store) : Prop :=
  savedRevision (state w) <= revision (state w)
  /\ (committed (state w) = false ->
      savedRevision (state w) = revision (state w) ->
      isNew (state w) = false ->
      validIncoming cfg incomingId s0 = true).

End Plugin.

(** ** Vocabulary for further properties of the cookie codec *)

Module CookieViews.

Import JsString.

(** [s.includes(c)] for one character. *)
Fixpoint contains (c : ascii) (s : string) : bool :=
  match s with
  | EmptyString => false
  | String d s' => Ascii.eqb d c || contains c s'
  end.

(** The first code unit of a string is not white space (or there is
    none). *)
Definition headOk (s : string) : bool :=
  match s with
  | EmptyString => true
  | String c _ => negb (isWhiteSpace c)
  end.

(** Every name of a map is non-empty and has no white space around it. *)
Definition cleanNames (m : gmap string string) : Prop :=
  forall k v, m !! k = Some v -> k <> EmptyString /\ trim k = k.

End CookieViews.

(** ** Vocabulary for further properties of the memory adapter *)

Module MemoryViews.

Import Types Memory.

(** A call on the adapter of [createMemorySessionAdapter], with the time
    its clock shows during the call. *)
Inductive MemoryCall : Type :=
| MemSet (t : Z) (id : string) (session : StoredSession)
| MemGet (t : Z) (id : string)
| MemDelete (t : Z) (id : string).

Definition runCall (c : MemoryCall) (m : MemoryStore) : MemoryStore :=
  match c with
  | MemSet t id v => adapter_set (createMemorySessionAdapter t) id v m
  | MemGet t id => (adapter_get (createMemorySessionAdapter t) id m).2
  | MemDelete t id => adapter_delete (createMemorySessionAdapter t) id m
  end.

(** The store of a new adapter after a sequence of calls. *)
Definition storeAfter (cs : list MemoryCall) : MemoryStore :=
  fold_left (fun m c => runCall c m) cs emptyStore.

(** Every reference in the [sessions] map points to a session object with
    its [data] object. *)
Definition storeValid (m : MemoryStore) : Prop :=
  forall id r, sessions m !! id = Some r -> is_Some (readSession (heap m) r).

End MemoryViews.

(** ** Vocabulary for further properties of the plugin *)

Module PluginViews.

Import JsString Types Plugin.

(** The cookie texts a [set-cookie] entry holds, in order; a falsy entry
    holds none. *)
Definition headerValues (h : HeaderValue) : list string :=
  match h with
  | HUndefined => []
  | HString s => if truthy s then [s] else []
  | HArray l => l
  end.


(** A read or [save()]. *)
Definition isReadOrSave (o : Op) : bool :=
  match o with
  | OSave => true
  | _ => isRead o
  end.







Definition isRegenerate (o : Op) : bool :=
  match o with
  | ORegenerate => true
  | _ => false
  end.

(** [committed] implies that nothing is left to save. *)
Definition settled (st : State) : Prop :=
  committed st = true -> savedRevision st = revision st.

End PluginViews.

(** * Concrete inputs *)

Module CookieExamples.

(** A decoder that rejects every value with a [%] in it and returns every
    other value as it is; [parseCookies] then keeps the former raw. *)
Definition plainDecode (s : string) : option string :=
  if (JsString.indexOf "%" s <? 0)%Z then Some s else None.

End CookieExamples.

Module MemoryExamples.

Import Types Memory.

Definition v0 : StoredSession :=
  {| data := {[ "visits" := JNumber 1 ]}; expiresAt := 100 |}.

(** A caller's heap with one session object, at [r0]. *)
Definition r0 : loc := (allocSession v0 (heap emptyStore)).1.
Definition h0 : Heap := (allocSession v0 (heap emptyStore)).2.

Definition mus0 : list Mutation :=
  [MSetField "visits" (JNumber 2); MSetExpiresAt 0; MReplaceData ∅].

(** The adapter after [set("a", r0)], for a [clone]. *)
Definition afterSet (clone : Heap -> loc -> option (loc * Heap))
  : MemoryStore :=
  set clone "a" r0 {| heap := h0; sessions := ∅ |}.

(** Then the caller mutates the object it passed, and calls [get("a")]
    at time 5. *)
Definition readBack (clone : Heap -> loc -> option (loc * Heap))
    (mus : list Mutation) : option StoredSession :=
  observe
    (get clone 5 "a"
       (withHeap (mutateAll r0 mus (heap (afterSet clone)))
          (afterSet clone))).

End MemoryExamples.

Module PluginExamples.

Import Types Plugin.

(** A host whose clock starts at 1000 and advances by one at each
    reading; the two text built-ins are stand-ins that leave the id as it
    is and print the time as a number. *)
Definition host0 : Host :=
  {| dateNow := fun n => (1000 + Z.of_nat n)%Z;
     encodeURIComponent := fun s => s;
     toUTCString := fun t => JsString.ofZ t |}.

Definition ids0 (n : nat) : string := "id" +:+ JsString.ofZ (Z.of_nat n).

(** The memory adapter with a clock fixed at 1000, a TTL of a minute. *)
Definition cfg0 (createOnRequest rolling : bool)
  : Config Memory.MemoryStore :=
  {| adapter := Memory.createMemorySessionAdapter 1000;
     ttl := 60000;
     rolling := rolling;
     createOnRequest := createOnRequest;
     cookie := Cookie.defaultCookie;
     generateId := ids0;
     initialData := ∅ |}.

(** An empty store and a response without a [set-cookie] header. *)
Definition sys0 : Sys Memory.MemoryStore :=
  {| headers := HUndefined; store := Memory.emptyStore; calls := [];
     idReads := 0; clockReads := 0 |}.

(** The surroundings of a second request, after a first request has
    stored the session [id0]: the store is kept, the headers and the log
    start anew. *)
Definition sys1 : Sys Memory.MemoryStore :=
  {| headers := HUndefined;
     store := store (sys (handleRequest (cfg0 true true) host0 None [] sys0));
     calls := []; idReads := 1; clockReads := 10 |}.

(** A session read from the empty store in lazy mode. *)
Definition lazyWorld : World Memory.MemoryStore :=
  resolve (cfg0 false true) host0 None sys0.

(** A session read from the empty store in eager mode. *)
Definition eagerWorld : World Memory.MemoryStore :=
  resolve (cfg0 true true) host0 None sys0.

End PluginExamples.

(** * Properties *)

(** ** The cookie codec *)

Module CookieFacts.

Import JsString Cookie.

Lemma indexOf_splitFirst (c : ascii) (s : string) :
  match splitFirst c s with
  | None => indexOf c s = (-1)%Z
  | Some (a, b) =>
      (0 <= indexOf c s)%Z
      /\ a = take (Z.to_nat (indexOf c s)) s
      /\ b = drop (Z.to_nat (indexOf c s + 1)) s
  end.
Proof.
  induction s as [|d s IH]; simpl; [reflexivity|].
  destruct (Ascii.eqb d c); [repeat split; lia|].
  destruct (splitFirst c s) as [[a b]|].
  - destruct IH as (Hi & -> & ->).
    destruct (Z.ltb_spec (indexOf c s) 0) as [?|_]; [lia|].
    split; [lia|].
    replace (Z.to_nat (indexOf c s + 1 + 1))
      with (S (Z.to_nat (indexOf c s + 1))) by lia.
    split; [|reflexivity].
    replace (Z.to_nat (indexOf c s + 1)) with (S (Z.to_nat (indexOf c s)))
      by lia.
    reflexivity.
  - rewrite IH. reflexivity.
Qed.

Section Agreement.

Variable decodeURIComponent : string -> option string.

Let parsePair := parsePair decodeURIComponent.
Let specEntry := specEntry decodeURIComponent.

(** The loop body stores the entry the specification describes, if
    there is one. *)
Lemma parsePair_specEntry (result : gmap string string) (pair : string) :
  parsePair result pair =
  match specEntry pair with
  | None => result
  | Some (n, v) => assignProp result n v
  end.
Proof.
  unfold parsePair, specEntry, Cookie.parsePair, Cookie.specEntry, truthy.
  pose proof (indexOf_splitFirst "=" pair) as H.
  destruct (splitFirst "=" pair) as [[a b]|].
  - destruct H as (Hi & -> & ->).
    destruct (Z.ltb_spec (indexOf "=" pair) 0) as [?|_]; [lia|].
    rewrite negb_involutive.
    destruct (String.eqb _ EmptyString); reflexivity.
  - rewrite H. reflexivity.
Qed.

Lemma assignProp_lookup_ne (o : gmap string string) (n v k : string) :
  k <> proto_key ->
  assignProp o n v !! k = if String.eqb n k then Some v else o !! k.
Proof.
  intros Hk. unfold assignProp.
  destruct (String.eqb_spec n proto_key) as [->|Hn].
  - destruct (String.eqb_spec proto_key k) as [<-|_]; [done|reflexivity].
  - destruct (String.eqb_spec n k) as [->|Hnk].
    + apply lookup_insert_eq.
    + by apply lookup_insert_ne.
Qed.

Lemma assignProp_lookup_proto (o : gmap string string) (n v : string) :
  assignProp o n v !! proto_key = o !! proto_key.
Proof.
  unfold assignProp.
  destruct (String.eqb_spec n proto_key) as [->|Hn]; [reflexivity|].
  by apply lookup_insert_ne.
Qed.

Lemma fold_parsePair_lookup (pairs : list string)
    (m : gmap string string) (k : string) :
  k <> proto_key ->
  fold_left parsePair pairs m !! k =
  match lastValue k (omap specEntry pairs) with
  | Some v => Some v
  | None => m !! k
  end.
Proof.
  intros Hk. revert m.
  induction pairs as [|p ps IH]; intros m; [reflexivity|].
  cbn [fold_left]. rewrite IH, parsePair_specEntry.
  change (omap specEntry (p :: ps)) with
    (match specEntry p with
     | Some e => e :: omap specEntry ps
     | None => omap specEntry ps
     end).
  destruct (specEntry p) as [[n v]|]; [|reflexivity].
  cbn [lastValue].
  destruct (lastValue k (omap specEntry ps)); [reflexivity|].
  rewrite (assignProp_lookup_ne _ _ _ _ Hk).
  destruct (String.eqb n k); reflexivity.
Qed.

Lemma fold_parsePair_proto (pairs : list string)
    (m : gmap string string) :
  fold_left parsePair pairs m !! proto_key = m !! proto_key.
Proof.
  revert m. induction pairs as [|p ps IH]; intros m; simpl; [reflexivity|].
  rewrite IH, parsePair_specEntry.
  destruct (specEntry p) as [[n v]|]; [|reflexivity].
  apply assignProp_lookup_proto.
Qed.

(** On every name but [__proto__] the object built by [parseCookies] is
    the mapping the specification describes, for every header. *)
Lemma parseCookies_agrees (cookieHeader : option string) (k : string) :
  k <> proto_key ->
  parseCookies decodeURIComponent cookieHeader !! k =
  parseCookies_spec decodeURIComponent cookieHeader k.
Proof.
  intros Hk. destruct cookieHeader as [h|]; simpl; [|done].
  destruct h as [|c h]; [done|].
  change (negb (truthy (String c h))) with false. cbv iota.
  unfold specEntries.
  rewrite (fold_parsePair_lookup _ _ _ Hk).
  destruct (lastValue _ _); done.
Qed.

(** A cookie named [__proto__] never becomes a property of the result. *)
Lemma parseCookies_no_proto (cookieHeader : option string) :
  parseCookies decodeURIComponent cookieHeader !! proto_key = None.
Proof.
  destruct cookieHeader as [h|]; simpl; [|done].
  destruct (negb (truthy h)); [done|].
  by rewrite fold_parsePair_proto.
Qed.

End Agreement.

Example parseCookies_sample :
  parseCookies CookieExamples.plainDecode
    (Some "sid=abc; theme = dark ;sid=x%zz;;=nameless; flag; q=a=b")
  = {[ "sid" := "x%zz"; "theme" := "dark"; "q" := "a=b" ]}.
Proof. vm_compute. reflexivity. Qed.

(** C8, at the header [__proto__=abc]: the specification's mapping binds
    the name [__proto__] to the decoded (or raw) value [abc], while the
    object [parseCookies] returns has no property at all. *)
Theorem parseCookies_drops_proto_cookie
    (decodeURIComponent : string -> option string) :
  parseCookies decodeURIComponent (Some "__proto__=abc") = ∅
  /\ parseCookies_spec decodeURIComponent (Some "__proto__=abc") "__proto__"
     = Some (decodeOrRaw decodeURIComponent "abc").
Proof. split; reflexivity. Qed.

End CookieFacts.

(** ** The memory adapter *)

Module MemoryFacts.

Import Types Memory.

Lemma readSession_allocSession (v : StoredSession) (h : Heap) :
  readSession (allocSession v h).2 (allocSession v h).1 = Some v.
Proof.
  unfold readSession, allocSession; simpl.
  rewrite lookup_insert_eq; simpl. rewrite lookup_insert_eq; simpl.
  by destruct v.
Qed.

(** Allocation leaves the objects that exist where they are. *)
Lemma allocSession_sessionObjects (v : StoredSession) (h : Heap)
    (r : loc) (so : SessionObject) :
  sessionObjects h !! r = Some so ->
  sessionObjects (allocSession v h).2 !! r = Some so.
Proof.
  intros Hr. simpl. rewrite lookup_insert_ne; [done|].
  intros <-. apply (is_fresh (dom (sessionObjects h))).
  apply elem_of_dom. eauto.
Qed.

Lemma allocSession_dataObjects (v : StoredSession) (h : Heap)
    (d : loc) (o : JsonObject) :
  dataObjects h !! d = Some o ->
  dataObjects (allocSession v h).2 !! d = Some o.
Proof.
  intros Hd. simpl. rewrite lookup_insert_ne; [done|].
  intros <-. apply (is_fresh (dom (dataObjects h))).
  apply elem_of_dom. eauto.
Qed.

Lemma allocSession_fresh_session (v : StoredSession) (h : Heap) :
  sessionObjects h !! (allocSession v h).1 = None.
Proof. simpl. apply not_elem_of_dom, is_fresh. Qed.

Lemma allocSession_fresh_data (v : StoredSession) (h : Heap)
    (so : SessionObject) :
  sessionObjects (allocSession v h).2 !! (allocSession v h).1 = Some so ->
  dataObjects h !! dataRef so = None.
Proof.
  simpl. rewrite lookup_insert_eq. intros [= <-]. simpl.
  apply not_elem_of_dom, is_fresh.
Qed.

(** A mutation through [r] leaves an object apart from [r] as it is. *)
Lemma mutate_frame (r : loc) (mu : Mutation) (h : Heap)
    (r0 : loc) (so0 : SessionObject) (o0 : JsonObject) :
  kept h r0 so0 o0 -> apart h r r0 so0 ->
  kept (mutate r mu h) r0 so0 o0 /\ apart (mutate r mu h) r r0 so0.
Proof.
  intros [Hr0 Hd0] [Hne Hd]. unfold mutate, kept, apart.
  destruct (sessionObjects h !! r) as [so|] eqn:Hr.
  2:{ rewrite Hr. repeat split; try done. }
  specialize (Hd so eq_refl).
  destruct mu as [e|key value|key|next]; simpl.
  - rewrite lookup_insert_eq, lookup_insert_ne by done.
    repeat split; try done. by intros ? [= <-].
  - rewrite Hr, lookup_alter_ne by done.
    repeat split; try done. by intros ? [= <-].
  - rewrite Hr, lookup_alter_ne by done.
    repeat split; try done. by intros ? [= <-].
  - assert (fresh (dom (dataObjects h)) <> dataRef so0) as Hf.
    { intros Heq. apply (is_fresh (dom (dataObjects h))).
      rewrite Heq. apply elem_of_dom. eauto. }
    rewrite lookup_insert_eq, !lookup_insert_ne by done.
    repeat split; try done. by intros ? [= <-].
Qed.

Lemma mutateAll_frame (r : loc) (mus : list Mutation) (h : Heap)
    (r0 : loc) (so0 : SessionObject) (o0 : JsonObject) :
  kept h r0 so0 o0 -> apart h r r0 so0 ->
  kept (mutateAll r mus h) r0 so0 o0.
Proof.
  revert h. induction mus as [|mu mus IH]; intros h Hk Ha; [done|].
  destruct (mutate_frame r mu h r0 so0 o0 Hk Ha) as [Hk' Ha'].
  exact (IH _ Hk' Ha').
Qed.

(** [get] on a stored object that is kept: the caller reads the stored
    value from a new object, unless the entry has expired. *)
Lemma get_kept (t : Z) (id : string) (m : MemoryStore)
    (r0 : loc) (so0 : SessionObject) (o0 : JsonObject) :
  sessions m !! id = Some r0 -> kept (heap m) r0 so0 o0 ->
  observe (get defaultClone t id m) =
  if (expires so0 <=? t)%Z then None
  else Some {| data := o0; expiresAt := expires so0 |}.
Proof.
  intros Hid [Hr0 Hd0]. unfold get. rewrite Hid, Hr0.
  destruct (expires so0 <=? t)%Z; [done|].
  unfold defaultClone, readSession at 1. rewrite Hr0; simpl.
  rewrite Hd0; simpl.
  exact (readSession_allocSession
           {| data := o0; expiresAt := expires so0 |} (heap m)).
Qed.

Lemma readSession_kept (h : Heap) (r : loc) (v : StoredSession) :
  readSession h r = Some v ->
  exists so, kept h r so (data v) /\ expires so = expiresAt v.
Proof.
  unfold readSession, kept. intros H.
  destruct (sessionObjects h !! r) as [so|]; [|done]. simpl in H.
  destruct (dataObjects h !! dataRef so) as [o|] eqn:Ho; [|done].
  simpl in H. injection H as <-. exists so. by rewrite Ho.
Qed.

(** What [set] stores is a copy apart from the caller's object. *)
Lemma set_stores_copy (id : string) (r : loc) (h : Heap)
    (ss : gmap string loc) (v : StoredSession) :
  readSession h r = Some v ->
  let m1 := set defaultClone id r {| heap := h; sessions := ss |} in
  exists r0 so0,
    sessions m1 !! id = Some r0
    /\ kept (heap m1) r0 so0 (data v)
    /\ expires so0 = expiresAt v
    /\ apart (heap m1) r r0 so0.
Proof.
  intros Hv. unfold set, defaultClone. cbn [heap sessions].
  rewrite Hv. cbn [mbind option_bind].
  destruct (readSession_kept h r v Hv) as (so & [Hr Hd] & He).
  pose proof (readSession_allocSession v h) as Hnew.
  destruct (allocSession v h) as [r0 h1] eqn:Ha. cbn [fst snd] in Hnew.
  destruct (readSession_kept _ _ _ Hnew) as (so0 & Hk0 & He0).
  exists r0, so0. cbn [heap sessions].
  rewrite lookup_insert_eq.
  split; [done|]. split; [done|]. split; [done|]. split.
  - intros ->.
    pose proof (allocSession_fresh_session v h) as Hf.
    rewrite Ha in Hf. cbn [fst] in Hf. congruence.
  - intros so' Hso' Heq.
    pose proof (allocSession_sessionObjects v h r so Hr) as Hr'.
    rewrite Ha in Hr'. cbn [snd] in Hr'.
    assert (so' = so) as -> by congruence.
    pose proof (allocSession_fresh_data v h so0) as Hf.
    rewrite Ha in Hf. cbn [fst snd] in Hf.
    specialize (Hf (proj1 Hk0)). rewrite <- Heq in Hf. congruence.
Qed.

(** What [get] returns is a copy apart from the stored object. *)
Lemma get_returns_copy (t : Z) (id : string) (m m1 : MemoryStore)
    (r : loc) :
  get defaultClone t id m = (Some r, m1) ->
  exists r0 so0 o0,
    sessions m !! id = Some r0
    /\ sessions m1 = sessions m
    /\ kept (heap m) r0 so0 o0
    /\ kept (heap m1) r0 so0 o0
    /\ apart (heap m1) r r0 so0.
Proof.
  unfold get. intros H.
  destruct (sessions m !! id) as [r0|] eqn:Hid; [|done].
  destruct (sessionObjects (heap m) !! r0) as [so0|] eqn:Hr0; [|done].
  destruct (expires so0 <=? t)%Z; [done|].
  unfold defaultClone, readSession at 1 in H. rewrite Hr0 in H.
  cbn [mbind option_bind] in H.
  destruct (dataObjects (heap m) !! dataRef so0) as [o0|] eqn:Hd0; [|done].
  cbn [mbind option_bind] in H.
  set (v := {| data := o0; expiresAt := expires so0 |}) in H.
  pose proof (readSession_allocSession v (heap m)) as Hnew.
  pose proof (allocSession_fresh_session v (heap m)) as Hf.
  pose proof (allocSession_fresh_data v (heap m)) as Hfd.
  pose proof (allocSession_sessionObjects v (heap m) r0 so0 Hr0) as Hr0'.
  pose proof (allocSession_dataObjects v (heap m) _ o0 Hd0) as Hd0'.
  destruct (allocSession v (heap m)) as [r' h1] eqn:Ha.
  cbn [fst snd] in *. injection H as <- <-. cbn [heap sessions].
  exists r0, so0, o0.
  split; [done|]. split; [done|]. split; [done|]. split; [done|]. split.
  - intros ->. congruence.
  - intros so' Hso' Heq. specialize (Hfd so' Hso').
    rewrite Heq in Hfd. congruence.
Qed.

(** C9. The memory adapter copies at both boundaries.  After
    [set(id, record)], whatever the caller then does to the object it
    passed, [get(id)] gives the value the object had when it was set (or
    nothing once that value has expired).  And whatever the caller does to
    an object it got from [get(id)], the adapter's map and the stored
    object keep their values, and a later [get(id)] gives what it would
    have given without those mutations. *)
Theorem memory_adapter_isolation :
  (forall (h : Heap) (ss : gmap string loc) (id : string) (r : loc)
          (v : StoredSession) (mus : list Mutation) (t : Z),
      readSession h r = Some v ->
      let m1 := set defaultClone id r {| heap := h; sessions := ss |} in
      observe (get defaultClone t id
                 (withHeap (mutateAll r mus (heap m1)) m1)) =
      if (expiresAt v <=? t)%Z then None else Some v)
  /\
  (forall (m m1 : MemoryStore) (id : string) (t t' : Z) (r : loc)
          (mus : list Mutation),
      get defaultClone t id m = (Some r, m1) ->
      let m2 := withHeap (mutateAll r mus (heap m1)) m1 in
      sessions m2 = sessions m
      /\ (forall r0, sessions m !! id = Some r0 ->
                     readSession (heap m2) r0 = readSession (heap m) r0)
      /\ observe (get defaultClone t' id m2) =
         observe (get defaultClone t' id m)).
Proof.
  split.
  - intros h ss id r v mus t Hv m1.
    destruct (set_stores_copy id r h ss v Hv)
      as (r0 & so0 & Hid & Hk & He & Ha).
    fold m1 in Hid, Hk, Ha.
    pose proof (mutateAll_frame r mus _ r0 so0 _ Hk Ha) as Hk'.
    rewrite (get_kept t id (withHeap _ m1) r0 so0 (data v) Hid Hk').
    rewrite He. by destruct v.
  - intros m m1 id t t' r mus Hget m2.
    destruct (get_returns_copy t id m m1 r Hget)
      as (r0 & so0 & o0 & Hid & Hss & Hk & Hk1 & Ha).
    pose proof (mutateAll_frame r mus _ r0 so0 o0 Hk1 Ha) as Hk2.
    split; [exact Hss|]. split.
    + intros r0' Hr0'. assert (r0' = r0) as -> by congruence.
      destruct Hk as [Hr Hd], Hk2 as [Hr2 Hd2].
      unfold m2, withHeap, readSession. cbn [heap].
      rewrite Hr, Hr2. simpl. by rewrite Hd, Hd2.
    + assert (sessions m2 !! id = Some r0) as Hid2
        by (unfold m2; simpl; congruence).
      rewrite (get_kept t' id m2 r0 so0 o0 Hid2 Hk2).
      by rewrite (get_kept t' id m r0 so0 o0 Hid Hk).
Qed.

Import MemoryExamples.

Lemma memory_adapter_isolation_witness :
  readBack defaultClone mus0 = Some v0
  /\ observe (get defaultClone 7 "a"
                (withHeap
                   (mutateAll 3%positive mus0
                      (heap (get defaultClone 5 "a" (afterSet defaultClone)).2))
                   (get defaultClone 5 "a" (afterSet defaultClone)).2)) =
     Some v0.
Proof.
  split.
  - apply (proj1 memory_adapter_isolation h0 ∅ "a" r0 v0 mus0 5%Z).
    reflexivity.
  - pose proof (proj2 memory_adapter_isolation
                  (afterSet defaultClone)
                  (get defaultClone 5 "a" (afterSet defaultClone)).2
                  "a" 5%Z 7%Z 3%positive mus0 eq_refl) as H.
    destruct H as (_ & _ & ->).
    apply (proj1 memory_adapter_isolation h0 ∅ "a" r0 v0 [] 7%Z).
    reflexivity.
Defined.

(** Without a copy at [set] the caller's later writes reach the store:
    here the entry is read back as expired. *)
Example aliasClone_leaks : readBack aliasClone mus0 = None.
Proof. reflexivity. Qed.

(** With a copy of the session object only, a write to its [data] object
    reaches the store. *)
Example shallowClone_leaks :
  readBack shallowClone [MSetField "visits" (JNumber 2)] =
  Some {| data := {[ "visits" := JNumber 2 ]}; expiresAt := 100 |}.
Proof. vm_compute. reflexivity. Qed.

End MemoryFacts.

(** ** The session state machine *)

Module SerializeFacts.

Import JsString Cookie.




(** The first four segments of a cookie text. *)
Lemma cookieSegments_head (enc : string -> string) (utc : Z -> string)
    (name value : string) (expiresAt : Z) (cookie : CookieOptions)
    (now : Z) :
  exists rest,
    cookieSegments enc utc name value expiresAt cookie now =
    (name +:+ "=" +:+ enc value)
      :: ("Path=" +:+ path cookie)
      :: ("SameSite=" +:+ formatSameSite (sameSite cookie))
      :: maxAgeSegment expiresAt now
      :: rest.
Proof.
  unfold cookieSegments.
  destruct (httpOnly cookie), (secure cookie), (domain cookie) as [d|];
    try destruct (truthy d); simpl; eauto.
Qed.

End SerializeFacts.

Module PluginFacts.

Import JsString Types Plugin.

Section Facts.

Context {Store : Type}.
Variable cfg : Config Store.
Variable host : Host.
Variable incomingId : option string.

Local Abbreviation persist := (persist cfg host incomingId).
Local Abbreviation destroy := (destroy cfg host incomingId).
Local Abbreviation save := (save cfg host incomingId).
Local Abbreviation runOp := (runOp cfg host incomingId).
Local Abbreviation runHandler := (runHandler cfg host incomingId).
Local Abbreviation onAfterHandle := (onAfterHandle cfg host incomingId).
Local Abbreviation regenerate := (regenerate cfg).

(** *** [persist] *)

Lemma persist_committed (mode : PersistMode) (w : World Store) :
  committed (state w) = true -> persist mode w = w.
Proof. intros H. unfold Plugin.persist. by rewrite H. Qed.

Lemma persist_commits (mode : PersistMode) (w : World Store) :
  committed (state (persist mode w)) = true.
Proof.
  unfold Plugin.persist.
  destruct (committed (state w)) eqn:Hc; [done|].
  destruct (destroyed (state w)); [done|].
  destruct (negb (shouldWrite cfg incomingId mode (state w))); [done|].
  destruct (ensureId cfg w) as [i w1].
  by destruct (now host (sys w1)).
Qed.

Lemma ensureId_destroyed (w : World Store) :
  destroyed (state (ensureId cfg w).2) = destroyed (state w).
Proof. unfold ensureId. by destruct (negb _). Qed.

Lemma persist_destroyed (mode : PersistMode) (w : World Store) :
  destroyed (state (persist mode w)) = destroyed (state w).
Proof.
  unfold Plugin.persist.
  destruct (committed (state w)); [done|].
  destruct (destroyed (state w)) eqn:Hd; [done|].
  destruct (negb (shouldWrite cfg incomingId mode (state w))); [done|].
  pose proof (ensureId_destroyed w) as He.
  destruct (ensureId cfg w) as [i w1]. simpl in He.
  destruct (now host (sys w1)). simpl. congruence.
Qed.

(** *** [destroy] and [regenerate] *)

Lemma destroy_destroyed (w : World Store) :
  destroyed (state (destroy w)) = true.
Proof.
  unfold Plugin.destroy. destruct (destroyed (state w)) eqn:Hd; [done|].
  by rewrite persist_destroyed.
Qed.

Lemma regenerate_destroyed (w : World Store) :
  destroyed (state w) = true ->
  regenerate w = (RThrow "Cannot regenerate a destroyed session.", w).
Proof. intros H. unfold Plugin.regenerate. by rewrite H. Qed.

(** No call on the handle brings a destroyed session back. *)
Lemma runOp_destroyed (o : Op) (w : World Store) :
  destroyed (state w) = true ->
  destroyed (state (runOp o w).2) = true.
Proof.
  intros H. destruct o; simpl; try done.
  - by destruct (updater _).
  - by rewrite regenerate_destroyed.
  - unfold Plugin.destroy. by rewrite H.
  - unfold Plugin.save. by rewrite persist_destroyed.
Qed.

Lemma runHandler_destroyed (ops : list Op) (w : World Store) :
  destroyed (state w) = true ->
  destroyed (state (runHandler ops w).2) = true.
Proof.
  revert w. induction ops as [|o ops IH]; intros w H; [done|].
  simpl. pose proof (runOp_destroyed o w H) as H1.
  destruct (runOp o w) as [r w1]. simpl in H1.
  specialize (IH w1 H1).
  by destruct (runHandler ops w1).
Qed.

(** *** The write decision *)

Lemma ensureId_store (w : World Store) :
  store (sys (ensureId cfg w).2) = store (sys w)
  /\ calls (sys (ensureId cfg w).2) = calls (sys w)
  /\ headers (sys (ensureId cfg w).2) = headers (sys w).
Proof. unfold ensureId. by destruct (negb _). Qed.

Lemma persist_write (mode : PersistMode) (w : World Store) :
  committed (state w) = false -> destroyed (state w) = false ->
  shouldWrite cfg incomingId mode (state w) = true ->
  exists i r,
    calls (sys (persist mode w)) = calls (sys w) ++ [CallSet i r]
    /\ store (sys (persist mode w)) =
       adapter_set (adapter cfg) i r (store (sys w)).
Proof.
  intros Hc Hd Hw. unfold Plugin.persist. rewrite Hc, Hd, Hw.
  cbn [negb].
  destruct (ensureId_store w) as (Hs & Hcs & _).
  destruct (ensureId cfg w) as [i w1]. cbn [snd] in Hs, Hcs.
  cbn [now emitSession adapterSet withHeaders sys calls store].
  rewrite Hs, Hcs. eauto.
Qed.

Lemma persist_skip (mode : PersistMode) (w : World Store) :
  committed (state w) = false -> destroyed (state w) = false ->
  shouldWrite cfg incomingId mode (state w) = false ->
  persist mode w = withState (setCommitted true (state w)) w.
Proof.
  intros Hc Hd Hw. unfold Plugin.persist. by rewrite Hc, Hd, Hw.
Qed.

(** *** What holds of the session throughout a request *)

Section Reachable.

Variable s0 : Sys Store.

Local Abbreviation inv := (inv cfg incomingId s0).

Lemma resolve_inv : inv (resolve cfg host incomingId s0).
Proof.
  unfold Plugin.inv, resolve, validIncoming. cbn [now].
  destruct incomingId as [i|]; [|by destruct (createOnRequest cfg)].
  destruct (truthy i) eqn:Ht.
  - unfold adapterGet. cbn [store].
    destruct (adapter_get (adapter cfg) i (store s0)) as [[r|] st'];
      [done|].
    by destruct (createOnRequest cfg).
  - by destruct (createOnRequest cfg).
Qed.

Lemma markDirty_inv (st : State) (w : World Store) :
  savedRevision st = savedRevision (state w) ->
  revision st = revision (state w) ->
  inv w -> inv (withState (markDirty st) w).
Proof.
  intros Hs Hr [Hle _]. unfold Plugin.inv. simpl. rewrite Hs, Hr. split; lia.
Qed.

Lemma persist_inv (mode : PersistMode) (w : World Store) :
  inv w -> inv (persist mode w).
Proof.
  intros Hi. destruct (committed (state w)) eqn:Hc.
  { by rewrite persist_committed. }
  pose proof (persist_commits mode w) as Hc'.
  split; [|congruence].
  unfold Plugin.persist. rewrite Hc.
  destruct (destroyed (state w)); [simpl; lia|].
  destruct (negb _); [by destruct Hi|].
  destruct (ensureId cfg w) as [i w1]. by destruct (now host (sys w1)).
Qed.

Lemma runOp_inv (o : Op) (w : World Store) : inv w -> inv (runOp o w).2.
Proof.
  intros Hi. destruct o; simpl; try done;
    try (by apply markDirty_inv).
  - destruct (updater _); [by apply markDirty_inv|done].
  - unfold Plugin.regenerate. destruct (destroyed (state w)); [done|].
    destruct Hi as [Hle _]. split; simpl; lia.
  - unfold Plugin.destroy. destruct (destroyed (state w)); [done|].
    pose proof (persist_commits manual
                  (withState (markDirty (setDestroyed true (state w))) w))
      as Hc.
    split; [|congruence].
    unfold Plugin.persist. simpl. lia.
  - by apply persist_inv.
Qed.

Lemma runHandler_inv (ops : list Op) (w : World Store) :
  inv w -> inv (runHandler ops w).2.
Proof.
  revert w. induction ops as [|o ops IH]; intros w Hi; [done|].
  simpl. pose proof (runOp_inv o w Hi) as H1.
  destruct (runOp o w) as [r w1]. simpl in H1.
  specialize (IH w1 H1). by destruct (runHandler ops w1).
Qed.

Lemma validIncoming_truthy :
  validIncoming cfg incomingId s0 = true -> truthyId incomingId = true.
Proof.
  unfold validIncoming, truthyId. destruct incomingId; [|done].
  by intros [? _]%andb_prop.
Qed.

(** On the sessions of a request the condition of the code is the
    condition of the specification. *)
Lemma shouldWrite_spec (mode : PersistMode) (w : World Store) :
  inv w -> committed (state w) = false ->
  shouldWrite cfg incomingId mode (state w) =
  specShouldWrite cfg incomingId s0 mode (state w).
Proof.
  intros [_ Hv] Hc. unfold shouldWrite, specShouldWrite, dirty.
  destruct (isNew (state w)) eqn:Hn; [done|].
  destruct (Nat.eqb_spec (savedRevision (state w)) (revision (state w)))
    as [He|_]; [|done].
  specialize (Hv Hc He eq_refl). rewrite Hv.
  by rewrite (validIncoming_truthy Hv).
Qed.

End Reachable.

(** *** Handlers that only read *)

Lemma runHandler_reads (ops : list Op) (w : World Store) :
  forallb isRead ops = true -> (runHandler ops w).2 = w.
Proof.
  induction ops as [|o ops IH]; intros Hr; [done|].
  simpl in Hr. apply andb_prop in Hr as [Ho Hr]. specialize (IH Hr).
  simpl. destruct o; try discriminate; simpl;
    by destruct (runHandler ops w).
Qed.

(** *** Calls that keep the session committed *)

Lemma runOp_quiet_committed (o : Op) (w : World Store) :
  isQuiet o = true -> committed (state w) = true ->
  committed (state (runOp o w).2) = true.
Proof.
  intros Hq Hc. destruct o; try discriminate; simpl; try done.
  - unfold Plugin.destroy. destruct (destroyed (state w)); [done|].
    apply persist_commits.
  - apply persist_commits.
Qed.

Lemma runHandler_quiet_committed (ops : list Op) (w : World Store) :
  forallb isQuiet ops = true -> committed (state w) = true ->
  committed (state (runHandler ops w).2) = true.
Proof.
  revert w. induction ops as [|o ops IH]; intros w Hq Hc; [done|].
  simpl in Hq. apply andb_prop in Hq as [Hq1 Hq2].
  simpl. pose proof (runOp_quiet_committed o w Hq1 Hc) as Hc1.
  destruct (runOp o w) as [r w1]. simpl in Hc1.
  specialize (IH w1 Hq2 Hc1).
  by destruct (runHandler ops w1).
Qed.

(** *** Effects in a destroyed session *)

Lemma onlyClears_refl (s : Sys Store) : onlyClears cfg host s s.
Proof. exists [], []. simpl. by rewrite app_nil_r. Qed.

Lemma onlyClears_trans (s1 s2 s3 : Sys Store) :
  onlyClears cfg host s1 s2 -> onlyClears cfg host s2 s3 ->
  onlyClears cfg host s1 s3.
Proof.
  intros (ds1 & ts1 & Hc1 & Hs1 & Hh1 & Hi1) (ds2 & ts2 & Hc2 & Hs2 & Hh2 & Hi2).
  exists (ds1 ++ ds2), (ts1 ++ ts2).
  rewrite Hc2, Hc1, Hs2, Hs1, Hh2, Hh1, Hi2, Hi1.
  unfold deleteAll, appendAll.
  by rewrite !map_app, !fold_left_app, app_assoc.
Qed.

Lemma onlyClears_delete (i : string) (s : Sys Store) :
  onlyClears cfg host s (adapterDelete cfg i s).
Proof. exists [i], []. done. Qed.

Lemma onlyClears_expired (s : Sys Store) :
  onlyClears cfg host s (emitExpired cfg host s).
Proof.
  exists [], [dateNow host (clockReads s)]. simpl. by rewrite app_nil_r.
Qed.

(** The commit of a destroyed session only deletes and clears. *)
Lemma persist_onlyClears (mode : PersistMode) (w : World Store) :
  destroyed (state w) = true ->
  onlyClears cfg host (sys w) (sys (persist mode w)).
Proof.
  intros Hd. unfold Plugin.persist.
  destruct (committed (state w)); [apply onlyClears_refl|].
  rewrite Hd. cbn [sys].
  eapply onlyClears_trans.
  - instantiate (1 := match id (state w) with
                      | Some i => if truthy i then adapterDelete cfg i (sys w)
                                  else sys w
                      | None => sys w
                      end).
    destruct (id (state w)) as [i|]; [|apply onlyClears_refl].
    destruct (truthy i); [apply onlyClears_delete|apply onlyClears_refl].
  - destruct (truthyId incomingId || truthyId (id (state w)));
      [apply onlyClears_expired|apply onlyClears_refl].
Qed.

Lemma destroy_onlyClears (w : World Store) :
  onlyClears cfg host (sys w) (sys (destroy w)).
Proof.
  unfold Plugin.destroy.
  destruct (destroyed (state w)) eqn:Hd; [apply onlyClears_refl|].
  apply (persist_onlyClears manual
           (withState (markDirty (setDestroyed true (state w))) w)).
  reflexivity.
Qed.

Lemma runOp_onlyClears (o : Op) (w : World Store) :
  destroyed (state w) = true ->
  onlyClears cfg host (sys w) (sys (runOp o w).2).
Proof.
  intros Hd. destruct o; simpl; try apply onlyClears_refl.
  - destruct (updater _); apply onlyClears_refl.
  - rewrite (regenerate_destroyed w Hd). apply onlyClears_refl.
  - apply destroy_onlyClears.
  - by apply persist_onlyClears.
Qed.

Lemma runHandler_onlyClears (ops : list Op) (w : World Store) :
  destroyed (state w) = true ->
  onlyClears cfg host (sys w) (sys (runHandler ops w).2).
Proof.
  revert w. induction ops as [|o ops IH]; intros w Hd;
    [apply onlyClears_refl|].
  simpl. pose proof (runOp_destroyed o w Hd) as Hd1.
  pose proof (runOp_onlyClears o w Hd) as H1.
  destruct (runOp o w) as [r w1]. simpl in Hd1, H1.
  specialize (IH w1 Hd1).
  destruct (runHandler ops w1) as [rs w2]. simpl in *.
  eapply onlyClears_trans; eassumption.
Qed.

(** In a destroyed session every [regenerate()] of a handler throws. *)
Lemma runHandler_regenerate_throws (ops : list Op) (w : World Store) :
  destroyed (state w) = true ->
  Forall2 (fun o r => o = ORegenerate ->
                      r = RThrow "Cannot regenerate a destroyed session.")
    ops (runHandler ops w).1.
Proof.
  revert w. induction ops as [|o ops IH]; intros w Hd; [constructor|].
  simpl. pose proof (runOp_destroyed o w Hd) as Hd1.
  assert (o = ORegenerate ->
          (runOp o w).1 = RThrow "Cannot regenerate a destroyed session.")
    as Hr.
  { intros ->. simpl. by rewrite (regenerate_destroyed w Hd). }
  destruct (runOp o w) as [r w1]. simpl in Hd1, Hr.
  specialize (IH w1 Hd1).
  destruct (runHandler ops w1) as [rs w2]. simpl in *.
  by constructor.
Qed.

End Facts.

(** C6. On a session that is not destroyed, [regenerate()] takes the next
    id from the generator, makes it the session id, sets [isNew], adds one
    to [revision], keeps the data and returns the new id; and if there was
    a previous id (a non-empty string) other than the new one, the call
    [adapter.delete(previousId)] has been made, on the store too, when
    [regenerate()] returns.  Otherwise the adapter is not called. *)
Theorem regenerate_rotates_id {Store : Type} (cfg : Config Store)
    (w : World Store) :
  destroyed (state w) = false ->
  let nextId := generateId cfg (idReads (sys w)) in
  let w' := (regenerate cfg w).2 in
  (regenerate cfg w).1 = RString nextId
  /\ id (state w') = Some nextId
  /\ isNew (state w') = true
  /\ revision (state w') = revision (state w) + 1
  /\ data (state w') = data (state w)
  /\ headers (sys w') = headers (sys w)
  /\ (forall p, id (state w) = Some p -> p <> EmptyString -> p <> nextId ->
        calls (sys w') = calls (sys w) ++ [CallDelete p]
        /\ store (sys w') = adapter_delete (adapter cfg) p (store (sys w)))
  /\ (id (state w) = None \/ id (state w) = Some EmptyString
      \/ id (state w) = Some nextId ->
        calls (sys w') = calls (sys w) /\ store (sys w') = store (sys w)).
Proof.
  intros Hd nextId w'. subst w'. unfold regenerate. rewrite Hd.
  cbn [newId fst snd state sys]. fold nextId.
  repeat (split; [reflexivity|]).
  split; [|split].
  - destruct (id (state w)) as [p|]; simpl; [|done].
    destruct (negb (String.eqb p nextId) && truthy p); reflexivity.
  - intros p -> Hp Hne. simpl.
    destruct (String.eqb_spec p nextId) as [?|_]; [done|].
    unfold truthy. destruct (String.eqb_spec p EmptyString) as [?|_]; [done|].
    done.
  - intros [-> | [-> | ->]]; simpl; [done|..].
    + unfold truthy. simpl. by rewrite andb_false_r.
    + by rewrite String.eqb_refl.
Qed.

Import PluginExamples.

Lemma regenerate_rotates_id_witness :
  (regenerate (cfg0 true true) eagerWorld).1 = RString "id1"
  /\ calls (sys (regenerate (cfg0 true true) eagerWorld).2) =
     [CallDelete "id0"].
Proof.
  pose proof (regenerate_rotates_id (cfg0 true true) eagerWorld eq_refl)
    as (Hr & _ & _ & _ & _ & _ & Hdel & _).
  split; [exact Hr|].
  exact (proj1 (Hdel "id0" eq_refl ltac:(discriminate) ltac:(discriminate))).
Defined.

(** C7. After [destroy()], and whatever the handler has done since,
    [regenerate()] throws its invalid-state error and the world is as it
    was before the call: the state (id, data, revision, flags), the store,
    the headers and the id generator. *)
Theorem regenerate_after_destroy_throws {Store : Type}
    (cfg : Config Store) (host : Host) (incomingId : option string)
    (w : World Store) (ops : list Op) :
  let w1 := (runHandler cfg host incomingId ops
               (destroy cfg host incomingId w)).2 in
  regenerate cfg w1 = (RThrow "Cannot regenerate a destroyed session.", w1).
Proof.
  intros w1. apply regenerate_destroyed.
  apply runHandler_destroyed, destroy_destroyed.
Qed.

(** C1, as amended.  Once [destroy()] has been called, whatever calls the
    handler makes afterwards and through the end-of-request commit: the
    session stays destroyed; every [regenerate()] throws; and from before
    the [destroy()] to the end of the request the only effects on the store
    and on the headers are [adapter.delete] calls and clearing cookies, so
    that no [adapter.set] is made, no live cookie is emitted and no id is
    generated.  The mutation methods are not guarded: what
    they change in memory is never stored. *)
Theorem destroyed_is_terminal {Store : Type} (cfg : Config Store)
    (host : Host) (incomingId : option string) (w : World Store)
    (ops : list Op) :
  let w1 := destroy cfg host incomingId w in
  let res := runHandler cfg host incomingId ops w1 in
  let w2 := onAfterHandle cfg host incomingId res.2 in
  destroyed (state w1) = true
  /\ destroyed (state res.2) = true
  /\ destroyed (state w2) = true
  /\ Forall2 (fun o r => o = ORegenerate ->
                         r = RThrow "Cannot regenerate a destroyed session.")
       ops res.1
  /\ onlyClears cfg host (sys w) (sys w2).
Proof.
  intros w1 res w2.
  assert (destroyed (state w1) = true) as H1 by apply destroy_destroyed.
  assert (destroyed (state res.2) = true) as H2
    by (apply runHandler_destroyed, H1).
  split; [exact H1|]. split; [exact H2|]. split.
  { unfold w2, Plugin.onAfterHandle. by rewrite persist_destroyed. }
  split; [apply runHandler_regenerate_throws, H1|].
  eapply onlyClears_trans; [apply destroy_onlyClears|].
  eapply onlyClears_trans; [apply runHandler_onlyClears, H1|].
  apply persist_onlyClears, H2.
Qed.

(** C1, as stated, fails: after [destroy()], [set("k", null)] returns
    normally, puts the key into the data and adds one to the revision. *)
Lemma destroyed_session_accepts_set :
  let w1 := destroy (cfg0 true true) host0 None eagerWorld in
  let res := runOp (cfg0 true true) host0 None (OSet "k" JNull) w1 in
  destroyed (state w1) = true
  /\ res.1 = RVoid
  /\ data (state w1) !! "k" = None
  /\ data (state res.2) !! "k" = Some JNull
  /\ revision (state res.2) = revision (state w1) + 1.
Proof. vm_compute. repeat split; reflexivity. Qed.

(** C4, as amended.  A second [destroy()] returns without effect, so two
    calls leave the world one call leaves.  On a session that is not yet
    destroyed, that one call deletes the session's record once and appends
    one clearing cookie when the session has an id (a non-empty string);
    when it has none, the adapter is not called, and one clearing cookie is
    appended only if the request came with an id. *)
Theorem destroy_idempotent {Store : Type} (cfg : Config Store)
    (host : Host) (incomingId : option string) (w : World Store) :
  let w1 := destroy cfg host incomingId w in
  let clearing :=
    expiredCookieAt cfg host (dateNow host (clockReads (sys w))) in
  destroy cfg host incomingId w1 = w1
  /\ (destroyed (state w) = false ->
      (forall i, id (state w) = Some i -> i <> EmptyString ->
         calls (sys w1) = calls (sys w) ++ [CallDelete i]
         /\ store (sys w1) = adapter_delete (adapter cfg) i (store (sys w))
         /\ headers (sys w1) = appendSetCookie (headers (sys w)) clearing)
      /\ (truthyId (id (state w)) = false ->
           calls (sys w1) = calls (sys w)
           /\ store (sys w1) = store (sys w)
           /\ headers (sys w1) =
              if truthyId incomingId
              then appendSetCookie (headers (sys w)) clearing
              else headers (sys w))).
Proof.
  intros w1 clearing. split.
  - pose proof (destroy_destroyed cfg host incomingId w) as H. fold w1 in H.
    unfold Plugin.destroy. by rewrite H.
  - intros Hd. subst w1 clearing. unfold destroy, persist. rewrite Hd.
    cbn [withState state sys markDirty setDestroyed setCommitted committed
         destroyed id revision setSavedRevision].
    split.
    + intros i -> Hi. unfold truthyId, truthy.
      destruct (String.eqb_spec i EmptyString) as [?|_]; [done|].
      rewrite orb_true_r. done.
    + intros Hid. rewrite Hid, orb_false_r.
      destruct (id (state w)) as [i|]; simpl in Hid.
      * rewrite Hid. by destruct (truthyId incomingId).
      * by destruct (truthyId incomingId).
Qed.

Lemma destroy_idempotent_witness :
  destroy (cfg0 true true) host0 None
    (destroy (cfg0 true true) host0 None eagerWorld)
  = destroy (cfg0 true true) host0 None eagerWorld
  /\ calls (sys (destroy (cfg0 true true) host0 None eagerWorld)) =
     [CallDelete "id0"].
Proof.
  pose proof (destroy_idempotent (cfg0 true true) host0 None eagerWorld)
    as [H1 H2].
  split; [exact H1|].
  destruct (H2 eq_refl) as [Hdel _].
  exact (proj1 (Hdel "id0" eq_refl ltac:(discriminate))).
Defined.

(** C4, as stated, fails: on a lazy session that has no id, in a request
    that came without one, two calls of [destroy()] make no call of
    [adapter.delete] and append no cookie. *)
Lemma destroy_without_id_is_silent :
  let w2 := (runHandler (cfg0 false true) host0 None [ODestroy; ODestroy]
               lazyWorld).2 in
  id (state lazyWorld) = None
  /\ destroyed (state w2) = true
  /\ calls (sys w2) = []
  /\ headers (sys w2) = HUndefined.
Proof. vm_compute. repeat split; reflexivity. Qed.

(** C3, as amended.  [persist] does nothing when [committed] is set.  So
    after a [save()], or a [destroy()] of a session not yet destroyed,
    followed in the handler only by calls that do not mark the session
    dirty (reads, [save()], [destroy()]), the end-of-request commit leaves
    the world as it is: no adapter call, no cookie.  A mutation or a
    [regenerate()] clears [committed], and the commit then runs again. *)
Theorem commit_once_unless_rearmed {Store : Type} (cfg : Config Store)
    (host : Host) (incomingId : option string) :
  (forall (mode : PersistMode) (w : World Store),
      committed (state w) = true -> persist cfg host incomingId mode w = w)
  /\ (forall (w : World Store) (ops : list Op),
        forallb isQuiet ops = true ->
        let w1 := (runHandler cfg host incomingId ops
                     (save cfg host incomingId w)).2 in
        onAfterHandle cfg host incomingId w1 = w1)
  /\ (forall (w : World Store) (ops : list Op),
        destroyed (state w) = false ->
        forallb isQuiet ops = true ->
        let w1 := (runHandler cfg host incomingId ops
                     (destroy cfg host incomingId w)).2 in
        onAfterHandle cfg host incomingId w1 = w1).
Proof.
  split; [apply persist_committed|]. split.
  - intros w ops Hq w1. apply persist_committed.
    apply runHandler_quiet_committed; [exact Hq|]. apply persist_commits.
  - intros w ops Hd Hq w1. apply persist_committed.
    apply runHandler_quiet_committed; [exact Hq|].
    unfold destroy. rewrite Hd. apply persist_commits.
Qed.

Lemma commit_once_unless_rearmed_witness :
  onAfterHandle (cfg0 true true) host0 None
    (runHandler (cfg0 true true) host0 None [OGet "k"; OSave]
       (save (cfg0 true true) host0 None eagerWorld)).2
  = (runHandler (cfg0 true true) host0 None [OGet "k"; OSave]
       (save (cfg0 true true) host0 None eagerWorld)).2
  /\ onAfterHandle (cfg0 true true) host0 None
       (runHandler (cfg0 true true) host0 None [ODestroy]
          (destroy (cfg0 true true) host0 None eagerWorld)).2
     = (runHandler (cfg0 true true) host0 None [ODestroy]
          (destroy (cfg0 true true) host0 None eagerWorld)).2.
Proof.
  pose proof (commit_once_unless_rearmed (cfg0 true true) host0 None)
    as (_ & Hsave & Hdestroy).
  split.
  - exact (Hsave eagerWorld [OGet "k"; OSave] eq_refl).
  - exact (Hdestroy eagerWorld [ODestroy] eq_refl eq_refl).
Defined.

(** C3, as stated, fails: a handler calls [save()], which commits, then
    [set("k", null)]; the end-of-request commit calls [adapter.set] again
    and appends a second cookie. *)
Lemma save_then_set_commits_twice :
  let w1 := (runHandler (cfg0 true true) host0 None [OSave; OSet "k" JNull]
               eagerWorld).2 in
  let w2 := onAfterHandle (cfg0 true true) host0 None w1 in
  calls (sys w1) = [CallSet "id0" {| Types.data := ∅; Types.expiresAt := 61001 |}]
  /\ calls (sys w2) =
     calls (sys w1)
     ++ [CallSet "id0" {| Types.data := {[ "k" := JNull ]};
                          Types.expiresAt := 61003 |}]
  /\ headers (sys w2) =
     HArray
       ["sid=id0; Path=/; SameSite=Lax; Max-Age=59; Expires=61001; HttpOnly";
        "sid=id0; Path=/; SameSite=Lax; Max-Age=59; Expires=61003; HttpOnly"].
Proof. vm_compute. repeat split; reflexivity. Qed.

(** C2. At the commit of a request (the session resolved from the request,
    then any calls of the handler), when the session is neither destroyed
    nor committed: [adapter.set] is called, once, exactly when the
    condition of the specification holds (new: [createOnRequest], or an id
    was assigned, or dirty, or manual mode; loaded: dirty, or [rolling] and
    a valid incoming id); and when it does not hold, the commit leaves the
    store, the headers and the log of adapter calls as they are. *)
Theorem commit_writes_iff {Store : Type} (cfg : Config Store) (host : Host)
    (incomingId : option string) (s0 : Sys Store) (ops : list Op)
    (mode : PersistMode) :
  let w := (runHandler cfg host incomingId ops
              (resolve cfg host incomingId s0)).2 in
  let w' := persist cfg host incomingId mode w in
  destroyed (state w) = false ->
  committed (state w) = false ->
  ((exists i r, calls (sys w') = calls (sys w) ++ [CallSet i r])
   <-> specShouldWrite cfg incomingId s0 mode (state w) = true)
  /\ (specShouldWrite cfg incomingId s0 mode (state w) = true ->
      exists i r,
        calls (sys w') = calls (sys w) ++ [CallSet i r]
        /\ store (sys w') = adapter_set (adapter cfg) i r (store (sys w)))
  /\ (specShouldWrite cfg incomingId s0 mode (state w) = false ->
      store (sys w') = store (sys w)
      /\ headers (sys w') = headers (sys w)
      /\ calls (sys w') = calls (sys w)).
Proof.
  intros w w' Hd Hc.
  assert (inv cfg incomingId s0 w) as Hi
    by apply runHandler_inv, resolve_inv.
  pose proof (shouldWrite_spec cfg incomingId s0 mode w Hi Hc) as Hspec.
  assert (specShouldWrite cfg incomingId s0 mode (state w) = false ->
          w' = withState (setCommitted true (state w)) w) as Hskip.
  { intros H. apply persist_skip; congruence. }
  assert (specShouldWrite cfg incomingId s0 mode (state w) = true ->
          exists i r,
            calls (sys w') = calls (sys w) ++ [CallSet i r]
            /\ store (sys w') = adapter_set (adapter cfg) i r (store (sys w)))
    as Hwrite.
  { intros H. apply persist_write; congruence. }
  split; [split|split].
  - intros (i & r & Hcalls).
    destruct (specShouldWrite cfg incomingId s0 mode (state w)); [done|].
    rewrite (Hskip eq_refl) in Hcalls. simpl in Hcalls.
    apply (f_equal length) in Hcalls. rewrite length_app in Hcalls.
    simpl in Hcalls. lia.
  - intros H. destruct (Hwrite H) as (i & r & Hcalls & _). eauto.
  - exact Hwrite.
  - intros H. by rewrite (Hskip H).
Qed.

Lemma commit_writes_iff_witness :
  exists i r,
    calls (sys (handleRequest (cfg0 false true) host0 None [OSet "k" JNull]
                  sys0)) = [] ++ [CallSet i r].
Proof.
  pose proof (commit_writes_iff (cfg0 false true) host0 None sys0
                [OSet "k" JNull] auto eq_refl eq_refl) as (_ & Hwrite & _).
  destruct (Hwrite eq_refl) as (i & r & Hcalls & _).
  exists i, r. exact Hcalls.
Defined.

(** C5, as amended.  With [createOnRequest] off and a handler that only
    reads the session: a request without a session id leaves the headers,
    the store and the log of adapter calls as they are; a request with an
    id that has no record makes the one call [adapter.get], no
    [adapter.set], and appends the clearing cookie of session resolution;
    a request with a valid id, when [rolling] is off, makes the one call
    [adapter.get] and appends no cookie.  With a valid id and [rolling] on
    the commit refreshes the record and the cookie. *)
Theorem lazy_read_only_request {Store : Type} (cfg : Config Store)
    (host : Host) (incomingId : option string) (s0 : Sys Store)
    (ops : list Op) :
  createOnRequest cfg = false ->
  forallb isRead ops = true ->
  let w := handleRequest cfg host incomingId ops s0 in
  (truthyId incomingId = false ->
     headers (sys w) = headers s0
     /\ calls (sys w) = calls s0
     /\ store (sys w) = store s0)
  /\ (forall i, incomingId = Some i -> i <> EmptyString ->
        let got := adapter_get (adapter cfg) i (store s0) in
        (got.1 = None ->
           calls (sys w) = calls s0 ++ [CallGet i]
           /\ store (sys w) = got.2
           /\ headers (sys w) =
              appendSetCookie (headers s0)
                (expiredCookieAt cfg host (dateNow host (S (clockReads s0)))))
        /\ (is_Some got.1 -> rolling cfg = false ->
             calls (sys w) = calls s0 ++ [CallGet i]
             /\ store (sys w) = got.2
             /\ headers (sys w) = headers s0)).
Proof.
  intros Hlazy Hr w. subst w. unfold handleRequest, onAfterHandle.
  rewrite (runHandler_reads cfg host incomingId ops _ Hr).
  split.
  - intros Hi. unfold resolve. cbn [now].
    assert (match incomingId with
            | Some i => if truthy i then adapterGet cfg i
                          {| headers := headers s0; store := store s0;
                             calls := calls s0; idReads := idReads s0;
                             clockReads := S (clockReads s0) |}
                        else (None, _)
            | None => (None, _)
            end = (None, {| headers := headers s0; store := store s0;
                            calls := calls s0; idReads := idReads s0;
                            clockReads := S (clockReads s0) |})) as ->.
    { destruct incomingId as [i|]; [|done]. simpl in Hi. by rewrite Hi. }
    rewrite Hi, Hlazy. unfold persist, shouldWrite, dirty. simpl.
    by rewrite Hlazy.
  - intros i -> Hi. unfold resolve. cbn [now].
    assert (truthy i = true) as Ht.
    { unfold truthy. by destruct (String.eqb_spec i EmptyString). }
    rewrite Ht. unfold adapterGet. cbn [store].
    destruct (adapter_get (adapter cfg) i (store s0)) as [[r|] st'];
      cbn [fst snd].
    + split; [done|]. intros _ Hroll.
      unfold persist, shouldWrite, dirty. simpl. by rewrite Hroll.
    + split; [|by intros [? ?]]. intros _.
      cbn [truthyId]. rewrite Ht, Hlazy.
      unfold persist, shouldWrite, dirty. simpl. by rewrite Hlazy.
Qed.

Lemma lazy_read_only_request_witness :
  headers (sys (handleRequest (cfg0 false true) host0 None [OGet "k"] sys0))
  = HUndefined
  /\ calls (sys (handleRequest (cfg0 false false) host0 (Some "id0")
                   [OGet "k"] sys1)) = [CallGet "id0"].
Proof.
  split.
  - exact (proj1 (proj1 (lazy_read_only_request (cfg0 false true) host0 None
                           sys0 [OGet "k"] eq_refl eq_refl) eq_refl)).
  - pose proof (proj2 (lazy_read_only_request (cfg0 false false) host0
                         (Some "id0") sys1 [OGet "k"] eq_refl eq_refl)
                  "id0" eq_refl ltac:(discriminate)) as [_ Hvalid].
    refine (proj1 (Hvalid _ eq_refl)). vm_compute. eauto.
Defined.

(** C5, as stated, fails: with [createOnRequest] off ([rolling] on, the
    default), a request that carries the id of a stored session and whose
    handler only reads gets [adapter.set] called and a cookie set. *)
Lemma lazy_read_of_valid_session_writes :
  let w := handleRequest (cfg0 false true) host0 (Some "id0") [OGet "k"]
             sys1 in
  calls (sys w) =
    [CallGet "id0";
     CallSet "id0" {| Types.data := ∅; Types.expiresAt := 61011 |}]
  /\ headers (sys w) =
     HString
       "sid=id0; Path=/; SameSite=Lax; Max-Age=59; Expires=61011; HttpOnly".
Proof. vm_compute. repeat split; reflexivity. Qed.

End PluginFacts.


(** ** Further properties of the cookie codec *)

Module CookieExtras.

Import JsString Cookie CookieViews.

(** *** [trim] *)

Lemma trimStart_headOk (s : string) : headOk (trimStart s) = true.
Proof.
  induction s as [|c s IH]; [done|]. simpl.
  destruct (isWhiteSpace c) eqn:Hc; [exact IH|]. simpl. by rewrite Hc.
Qed.

Lemma trimStart_id (s : string) : headOk s = true -> trimStart s = s.
Proof.
  destruct s as [|c s]; [done|]. simpl. by destruct (isWhiteSpace c).
Qed.

Lemma trimEnd_headOk (s : string) :
  headOk s = true -> headOk (trimEnd s) = true.
Proof.
  destruct s as [|c s]; [done|]. simpl. intros Hc.
  destruct (isWhiteSpace c) eqn:Hw; [discriminate Hc|]. simpl.
  by rewrite Hw.
Qed.

Lemma trimEnd_idempotent (s : string) : trimEnd (trimEnd s) = trimEnd s.
Proof.
  induction s as [|c s IH]; [done|]. simpl.
  destruct (isWhiteSpace c && String.eqb (trimEnd s) EmptyString) eqn:Hc;
    [done|].
  simpl. by rewrite IH, Hc.
Qed.

Lemma trim_idempotent (s : string) : trim (trim s) = trim s.
Proof.
  unfold trim.
  rewrite (trimStart_id (trimEnd (trimStart s)))
    by apply trimEnd_headOk, trimStart_headOk.
  apply trimEnd_idempotent.
Qed.

(** *** The names [parseCookies] stores *)

Section Names.

Variable decodeURIComponent : string -> option string.

Lemma parsePair_cleanNames (m : gmap string string) (pair : string) :
  cleanNames m -> cleanNames (parsePair decodeURIComponent m pair).
Proof.
  intros Hm. unfold parsePair.
  destruct (indexOf "=" pair <? 0)%Z; [done|].
  set (rawName := trim (take _ pair)).
  destruct (negb (truthy rawName)) eqn:Hn; [done|].
  unfold assignProp. destruct (String.eqb rawName proto_key); [done|].
  intros k v. destruct (decide (rawName = k)) as [<-|Hne].
  - intros _. split.
    + intros Heq. rewrite Heq in Hn. done.
    + apply trim_idempotent.
  - rewrite lookup_insert_ne by done. apply Hm.
Qed.

Lemma fold_parsePair_cleanNames (pairs : list string)
    (m : gmap string string) :
  cleanNames m ->
  cleanNames (fold_left (parsePair decodeURIComponent) pairs m).
Proof.
  revert m. induction pairs as [|p ps IH]; intros m Hm; [done|].
  simpl. apply IH, parsePair_cleanNames, Hm.
Qed.

End Names.

(** X2.  Whatever the header, every name in the result of [parseCookies]
    is a non-empty string without white space at either end. *)
Theorem parseCookies_names_clean
    (decodeURIComponent : string -> option string)
    (cookieHeader : option string) (k v : string) :
  parseCookies decodeURIComponent cookieHeader !! k = Some v ->
  k <> EmptyString /\ trim k = k.
Proof.
  destruct cookieHeader as [h|]; simpl; [|done].
  destruct (negb (truthy h)); [done|].
  apply (fold_parsePair_cleanNames decodeURIComponent (split ";" h) ∅).
  intros k' v'. by rewrite lookup_empty.
Qed.

Lemma parseCookies_names_clean_witness :
  "theme" <> EmptyString /\ trim "theme" = "theme".
Proof.
  apply (parseCookies_names_clean CookieExamples.plainDecode
           (Some "sid=abc;  theme = dark ") "theme" "dark").
  vm_compute. reflexivity.
Defined.

(** X1.  For every header, and every name other than [__proto__], the
    value [parseCookies] holds under the name is the value of the last pair
    of the header with that name: the header split on [;], each pair split
    on its first [=], name and value trimmed, pairs with an empty name
    skipped, the value decoded, or kept raw when decoding fails; and there
    is no value when there is no such pair. *)
Theorem parseCookies_last_pair_wins
    (decodeURIComponent : string -> option string)
    (cookieHeader : option string) (k : string) :
  k <> proto_key ->
  parseCookies decodeURIComponent cookieHeader !! k =
  parseCookies_spec decodeURIComponent cookieHeader k.
Proof. apply CookieFacts.parseCookies_agrees. Qed.

Lemma parseCookies_last_pair_wins_witness :
  parseCookies CookieExamples.plainDecode (Some "sid=a; sid=b%zz") !! "sid"
  = parseCookies_spec CookieExamples.plainDecode (Some "sid=a; sid=b%zz")
      "sid".
Proof.
  apply parseCookies_last_pair_wins. discriminate.
Defined.

(** *** Round trip of a cookie pair *)

Lemma contains_append (c : ascii) (a b : string) :
  contains c (a +:+ b) = contains c a || contains c b.
Proof.
  induction a as [|d a IH]; [done|]. simpl. by rewrite IH, orb_assoc.
Qed.

Lemma split_no_separator (sep : ascii) (s : string) :
  contains sep s = false -> split sep s = [s].
Proof.
  induction s as [|c s IH]; [done|]. simpl.
  intros [Hc Hs]%orb_false_elim. by rewrite Hc, (IH Hs).
Qed.

Lemma indexOf_after_prefix (c : ascii) (a b : string) :
  contains c a = false ->
  indexOf c (a +:+ String c b) = Z.of_nat (String.length a).
Proof.
  induction a as [|d a IH]; simpl.
  - intros _. by rewrite Ascii.eqb_refl.
  - intros [Hd Ha]%orb_false_elim. rewrite Hd, (IH Ha).
    destruct (Z.ltb_spec (Z.of_nat (String.length a)) 0); lia.
Qed.

Lemma take_prefix (a b : string) : take (String.length a) (a +:+ b) = a.
Proof. induction a as [|d a IH]; simpl; [by destruct b|by rewrite IH]. Qed.

Lemma drop_prefix (a : string) (c : ascii) (b : string) :
  drop (S (String.length a)) (a +:+ String c b) = b.
Proof. induction a as [|d a IH]; simpl; [done|exact IH]. Qed.

(** X3.  The pair a session cookie starts with, [name=encoded value],
    parses back to the value under the name, when the name is a plain
    cookie name (non-empty, not [__proto__], no [;], no [=], no white space
    around it), the encoder leaves no [;] and no outer white space in its
    output, and the decoder undoes the encoder on this value. *)
Theorem session_cookie_pair_round_trip
    (decodeURIComponent : string -> option string)
    (encodeURIComponent : string -> string) (toUTCString : Z -> string)
    (name value : string) (expiresAt : Z) (cookie : CookieOptions)
    (now : Z) :
  name <> EmptyString ->
  name <> proto_key ->
  contains ";" name = false ->
  contains "=" name = false ->
  trim name = name ->
  contains ";" (encodeURIComponent value) = false ->
  trim (encodeURIComponent value) = encodeURIComponent value ->
  decodeURIComponent (encodeURIComponent value) = Some value ->
  exists pair,
    cookieSegments encodeURIComponent toUTCString name value expiresAt
      cookie now !! 0 = Some pair
    /\ parseCookies decodeURIComponent (Some pair) !! name = Some value.
Proof.
  intros Hne Hproto Hsemi Heq Htrim Hesemi Hetrim Hdec.
  destruct (SerializeFacts.cookieSegments_head
              encodeURIComponent toUTCString name value expiresAt cookie now)
    as [rest ->].
  eexists. split; [reflexivity|].
  change (name +:+ "=" +:+ encodeURIComponent value)
    with (name +:+ String "=" (encodeURIComponent value)).
  unfold parseCookies.
  assert (truthy (name +:+ String "=" (encodeURIComponent value)) = true)
    as -> by (by destruct name).
  cbn [negb].
  rewrite split_no_separator.
  2:{ rewrite contains_append. simpl. by rewrite Hsemi, Hesemi. }
  cbn [fold_left]. unfold parsePair.
  rewrite (indexOf_after_prefix "=" name _ Heq).
  destruct (Z.ltb_spec (Z.of_nat (String.length name)) 0) as [?|_]; [lia|].
  rewrite Nat2Z.id.
  replace (Z.to_nat (Z.of_nat (String.length name) + 1))
    with (S (String.length name)) by lia.
  rewrite take_prefix, drop_prefix, Htrim, Hetrim.
  assert (truthy name = true) as ->.
  { unfold truthy. by destruct (String.eqb_spec name EmptyString). }
  cbn [negb]. unfold assignProp.
  destruct (String.eqb_spec name proto_key) as [?|_]; [done|].
  rewrite lookup_insert_eq. unfold decodeOrRaw. by rewrite Hdec.
Qed.

Lemma session_cookie_pair_round_trip_witness :
  exists pair,
    cookieSegments (fun s => s) ofZ "sid" "id0" 61001 defaultCookie 1001 !! 0
    = Some pair
    /\ parseCookies CookieExamples.plainDecode (Some pair) !! "sid"
       = Some "id0".
Proof.
  apply (session_cookie_pair_round_trip CookieExamples.plainDecode
           (fun s => s) ofZ "sid" "id0" 61001 defaultCookie 1001);
    first [discriminate | reflexivity].
Defined.

(** *** [Max-Age] *)

(** X4.  The [Max-Age] of a cookie is never negative; it is 0 as soon as
    less than a second is left (so for every expired cookie); and for a
    cookie that has not expired it is the number of whole seconds left,
    never more than the time left. *)
Theorem maxAge_bounds (expiresAt now : Z) :
  (0 <= maxAge expiresAt now)%Z
  /\ ((expiresAt - now < 1000)%Z -> maxAge expiresAt now = 0%Z)
  /\ ((now <= expiresAt)%Z ->
      (1000 * maxAge expiresAt now <= expiresAt - now
       < 1000 * maxAge expiresAt now + 1000)%Z).
Proof.
  unfold maxAge. split; [lia|]. split.
  - intros H.
    assert ((expiresAt - now) / 1000 < 1)%Z
      by (apply Z.div_lt_upper_bound; lia).
    lia.
  - intros H.
    assert (0 <= (expiresAt - now) / 1000)%Z by (apply Z.div_pos; lia).
    rewrite Z.max_r by lia.
    pose proof (Z.mul_div_le (expiresAt - now) 1000 ltac:(lia)).
    pose proof (Z.mul_succ_div_gt (expiresAt - now) 1000 ltac:(lia)).
    lia.
Qed.

Lemma maxAge_bounds_witness :
  maxAge 0 1001 = 0%Z
  /\ (1000 * maxAge 61001 1001 <= 61001 - 1001
      < 1000 * maxAge 61001 1001 + 1000)%Z.
Proof.
  pose proof (maxAge_bounds 0 1001) as (_ & H0 & _).
  pose proof (maxAge_bounds 61001 1001) as (_ & _ & H1).
  split; [apply H0; lia|apply H1; lia].
Defined.

(** *** The attributes of a cookie text *)




End CookieExtras.

(** ** Further properties of the memory adapter *)

Module MemoryExtras.

Import Types Memory MemoryViews MemoryFacts.

Lemma kept_readSession (h : Heap) (r : loc) (so : SessionObject)
    (o : JsonObject) :
  kept h r so o ->
  readSession h r = Some {| data := o; expiresAt := expires so |}.
Proof. intros [Hr Hd]. unfold readSession. rewrite Hr. simpl. by rewrite Hd. Qed.

Lemma allocSession_kept (v : StoredSession) (h : Heap) (r : loc)
    (so : SessionObject) (o : JsonObject) :
  kept h r so o -> kept (allocSession v h).2 r so o.
Proof.
  intros [Hr Hd]. split.
  - by apply allocSession_sessionObjects.
  - by apply allocSession_dataObjects.
Qed.

Lemma adapter_set_unfold (t : Z) (id : string) (v : StoredSession)
    (m : MemoryStore) :
  adapter_set (createMemorySessionAdapter t) id v m =
  set defaultClone id (allocSession v (heap m)).1
    {| heap := (allocSession v (heap m)).2; sessions := sessions m |}.
Proof. reflexivity. Qed.

(** What [adapter.set] leaves: the id points to a copy that holds the
    value, and the objects that were there are still there. *)
Lemma adapter_set_stores (t : Z) (id : string) (v : StoredSession)
    (m : MemoryStore) :
  let m1 := adapter_set (createMemorySessionAdapter t) id v m in
  (exists r0 so0,
      sessions m1 !! id = Some r0
      /\ kept (heap m1) r0 so0 (data v)
      /\ expires so0 = expiresAt v)
  /\ (forall id', id' <> id -> sessions m1 !! id' = sessions m !! id')
  /\ (forall r so o, kept (heap m) r so o -> kept (heap m1) r so o).
Proof.
  intros m1. subst m1. rewrite adapter_set_unfold.
  pose proof (readSession_allocSession v (heap m)) as Hnew.
  pose proof (fun r' so o => allocSession_kept v (heap m) r' so o) as Hext1.
  destruct (allocSession v (heap m)) as [r h1]. cbn [fst snd] in *.
  destruct (set_stores_copy id r h1 (sessions m) v Hnew)
    as (r0 & so0 & Hid & Hk & He & _).
  split; [by exists r0, so0|].
  unfold set, defaultClone. cbn [heap sessions].
  rewrite Hnew. cbn [mbind option_bind].
  pose proof (fun r' so o => allocSession_kept v h1 r' so o) as Hext2.
  destruct (allocSession v h1) as [r2 h2]. cbn [fst snd heap sessions] in *.
  split.
  - intros id' Hne. by rewrite lookup_insert_ne.
  - intros r' so o Hk'. by apply Hext2, Hext1.
Qed.

Lemma adapter_get_kept (t : Z) (id : string) (m : MemoryStore)
    (r0 : loc) (so0 : SessionObject) (o0 : JsonObject) :
  sessions m !! id = Some r0 -> kept (heap m) r0 so0 o0 ->
  (adapter_get (createMemorySessionAdapter t) id m).1 =
  if (expires so0 <=? t)%Z then None
  else Some {| data := o0; expiresAt := expires so0 |}.
Proof. intros Hid Hk. exact (get_kept t id m r0 so0 o0 Hid Hk). Qed.

Lemma adapter_get_absent (t : Z) (id : string) (m : MemoryStore) :
  sessions m !! id = None ->
  (adapter_get (createMemorySessionAdapter t) id m).1 = None.
Proof. intros Hid. simpl. unfold get. by rewrite Hid. Qed.

(** X6.  What [set] stored under an id, [get] returns for that id as long
    as the adapter's clock is before the record's [expiresAt], and nothing
    from then on, for every store and every record. *)
Theorem memory_set_then_get (t t' : Z) (id : string) (v : StoredSession)
    (m : MemoryStore) :
  (adapter_get (createMemorySessionAdapter t') id
     (adapter_set (createMemorySessionAdapter t) id v m)).1 =
  if (expiresAt v <=? t')%Z then None else Some v.
Proof.
  destruct (adapter_set_stores t id v m) as ((r0 & so0 & Hid & Hk & He) & _).
  rewrite (adapter_get_kept t' id _ r0 so0 (data v) Hid Hk), He.
  by destruct v.
Qed.

(** X7.  A [get] that meets an expired record removes it: afterwards the
    id is absent from the map, and [get] gives nothing for it whatever the
    clock then shows. *)
Theorem memory_get_reclaims_expired (t t' t'' : Z) (id : string)
    (v : StoredSession) (m : MemoryStore) :
  (expiresAt v <= t')%Z ->
  let m2 := (adapter_get (createMemorySessionAdapter t') id
               (adapter_set (createMemorySessionAdapter t) id v m)).2 in
  sessions m2 !! id = None
  /\ (adapter_get (createMemorySessionAdapter t'') id m2).1 = None.
Proof.
  intros Hexp m2.
  assert (sessions m2 !! id = None) as Hgone.
  { subst m2.
    destruct (adapter_set_stores t id v m)
      as ((r0 & so0 & Hid & [Hr Hd] & He) & _).
    cbn [adapter_get createMemorySessionAdapter snd].
    unfold get. rewrite Hid, Hr, He.
    destruct (Z.leb_spec (expiresAt v) t') as [_|?]; [|lia].
    cbn [sessions]. apply lookup_delete_eq. }
  split; [exact Hgone|]. by apply adapter_get_absent.
Qed.

Lemma memory_get_reclaims_expired_witness :
  (adapter_get (createMemorySessionAdapter 50) "a"
     (adapter_get (createMemorySessionAdapter 100) "a"
        (adapter_set (createMemorySessionAdapter 0) "a" MemoryExamples.v0
           emptyStore)).2).1 = None.
Proof.
  refine (proj2 (memory_get_reclaims_expired 0 100 50 "a" MemoryExamples.v0
                   emptyStore _)).
  vm_compute. discriminate.
Defined.

(** X8.  After [delete(id)], [get(id)] gives nothing, and [get] of any
    other id gives what it gave before. *)
Theorem memory_delete_then_get (t t' : Z) (id id' : string)
    (m : MemoryStore) :
  (adapter_get (createMemorySessionAdapter t') id
     (adapter_delete (createMemorySessionAdapter t) id m)).1 = None
  /\ (id' <> id ->
      (adapter_get (createMemorySessionAdapter t') id'
         (adapter_delete (createMemorySessionAdapter t) id m)).1 =
      (adapter_get (createMemorySessionAdapter t') id' m).1).
Proof.
  split.
  - apply adapter_get_absent. apply lookup_delete_eq.
  - intros Hne. simpl. unfold get, delete. cbn [sessions heap].
    rewrite lookup_delete_ne by done.
    destruct (sessions m !! id') as [r|]; [|done].
    destruct (sessionObjects (heap m) !! r) as [so|]; [|done].
    destruct (expires so <=? t')%Z; [done|].
    by destruct (defaultClone (heap m) r) as [[r2 h2]|].
Qed.

Lemma memory_delete_then_get_witness :
  (adapter_get (createMemorySessionAdapter 5) "a"
     (adapter_delete (createMemorySessionAdapter 5) "b"
        (adapter_set (createMemorySessionAdapter 0) "a" MemoryExamples.v0
           emptyStore))).1 =
  (adapter_get (createMemorySessionAdapter 5) "a"
     (adapter_set (createMemorySessionAdapter 0) "a" MemoryExamples.v0
        emptyStore)).1.
Proof.
  refine (proj2 (memory_delete_then_get 5 5 "b" "a" _) _). discriminate.
Defined.

(** *** The stores an adapter goes through *)

Lemma adapter_get_store (t : Z) (id : string) (m : MemoryStore) :
  let m1 := (adapter_get (createMemorySessionAdapter t) id m).2 in
  (forall id' r, sessions m1 !! id' = Some r -> sessions m !! id' = Some r)
  /\ (forall r so o, kept (heap m) r so o -> kept (heap m1) r so o).
Proof.
  cbn [adapter_get createMemorySessionAdapter snd]. unfold get.
  destruct (sessions m !! id) as [r0|]; [|done].
  destruct (sessionObjects (heap m) !! r0) as [so0|]; [|done].
  destruct (expires so0 <=? t)%Z.
  { cbn [sessions heap fst snd]. split; [|done].
    intros id' r Hr. destruct (decide (id = id')) as [->|Hne].
    - by rewrite lookup_delete_eq in Hr.
    - by rewrite lookup_delete_ne in Hr. }
  unfold defaultClone.
  destruct (readSession (heap m) r0) as [v|]; [|done].
  cbn [mbind option_bind].
  pose proof (fun r so o => allocSession_kept v (heap m) r so o) as Hext.
  destruct (allocSession v (heap m)). done.
Qed.

Lemma storeValid_kept (m : MemoryStore) (id : string) (r : loc) :
  storeValid m -> sessions m !! id = Some r ->
  exists so o, kept (heap m) r so o.
Proof.
  intros Hv Hid. destruct (Hv id r Hid) as [v Hr].
  destruct (readSession_kept _ _ _ Hr) as (so & Hk & _). eauto.
Qed.

Lemma runCall_valid (c : MemoryCall) (m : MemoryStore) :
  storeValid m -> storeValid (runCall c m).
Proof.
  intros Hv. destruct c as [t id v|t id|t id]; unfold runCall.
  - destruct (adapter_set_stores t id v m)
      as ((r0 & so0 & Hid & Hk & _) & Hother & Hext).
    intros id' r Hr. destruct (decide (id' = id)) as [->|Hne].
    + assert (r = r0) as -> by congruence.
      rewrite (kept_readSession _ _ _ _ Hk). eauto.
    + rewrite (Hother id' Hne) in Hr.
      destruct (storeValid_kept m id' r Hv Hr) as (so & o & Hk').
      rewrite (kept_readSession _ _ _ _ (Hext _ _ _ Hk')). eauto.
  - destruct (adapter_get_store t id m) as [Hsub Hext].
    intros id' r Hr.
    destruct (storeValid_kept m id' r Hv (Hsub _ _ Hr)) as (so & o & Hk').
    rewrite (kept_readSession _ _ _ _ (Hext _ _ _ Hk')). eauto.
  - intros id' r Hr. simpl in Hr. unfold delete in Hr. simpl in Hr.
    destruct (decide (id = id')) as [->|Hne].
    + by rewrite lookup_delete_eq in Hr.
    + rewrite lookup_delete_ne in Hr by done. exact (Hv id' r Hr).
Qed.

Lemma storeAfter_valid (cs : list MemoryCall) : storeValid (storeAfter cs).
Proof.
  unfold storeAfter.
  assert (storeValid emptyStore) as H0 by (intros id r Hr; done).
  revert H0. generalize emptyStore.
  induction cs as [|c cs IH]; intros m Hm; [done|].
  simpl. apply IH, runCall_valid, Hm.
Qed.

(** X9.  In the store an adapter has reached by any calls, [set] under one
    id leaves what [get] gives for every other id as it was. *)
Theorem memory_set_keeps_other_ids (cs : list MemoryCall) (t t' : Z)
    (id id' : string) (v : StoredSession) :
  id' <> id ->
  (adapter_get (createMemorySessionAdapter t') id'
     (adapter_set (createMemorySessionAdapter t) id v (storeAfter cs))).1 =
  (adapter_get (createMemorySessionAdapter t') id' (storeAfter cs)).1.
Proof.
  intros Hne. set (m := storeAfter cs).
  destruct (adapter_set_stores t id v m) as (_ & Hother & Hext).
  destruct (sessions m !! id') as [r|] eqn:Hid.
  - destruct (storeValid_kept m id' r (storeAfter_valid cs) Hid)
      as (so & o & Hk).
    rewrite (adapter_get_kept t' id' m r so o Hid Hk).
    apply (adapter_get_kept t' id' _ r so o); [|by apply Hext].
    by rewrite Hother.
  - rewrite (adapter_get_absent t' id' m Hid).
    apply adapter_get_absent. by rewrite Hother.
Qed.

Lemma memory_set_keeps_other_ids_witness :
  (adapter_get (createMemorySessionAdapter 5) "a"
     (adapter_set (createMemorySessionAdapter 5) "b" MemoryExamples.v0
        (storeAfter [MemSet 0 "a" MemoryExamples.v0]))).1 =
  (adapter_get (createMemorySessionAdapter 5) "a"
     (storeAfter [MemSet 0 "a" MemoryExamples.v0])).1.
Proof.
  apply (memory_set_keeps_other_ids [MemSet 0 "a" MemoryExamples.v0]).
  discriminate.
Defined.

End MemoryExtras.

(** ** Further properties of the plugin *)

Module PluginExtras.

Import JsString Types Plugin PluginViews PluginFacts PluginExamples.

(** X10.  [appendSetCookie] keeps the cookie texts the header held, in
    their order, and puts the new text after them. *)
Theorem appendSetCookie_keeps_values (existing : HeaderValue)
    (cookieValue : string) :
  truthy cookieValue = true ->
  headerValues (appendSetCookie existing cookieValue) =
  headerValues existing ++ [cookieValue].
Proof.
  intros Hc. unfold appendSetCookie.
  destruct existing as [|s|l]; simpl; [by rewrite Hc| |done].
  destruct (truthy s); simpl; [done|by rewrite Hc].
Qed.

Lemma appendSetCookie_keeps_values_witness :
  headerValues (appendSetCookie (HString "a=1") "sid=x") = ["a=1"; "sid=x"].
Proof. apply (appendSetCookie_keeps_values (HString "a=1") "sid=x" eq_refl). Defined.

Section Extras.

Context {Store : Type}.
Variable cfg : Config Store.
Variable host : Host.
Variable incomingId : option string.

Local Abbreviation persist := (persist cfg host incomingId).
Local Abbreviation runOp := (runOp cfg host incomingId).
Local Abbreviation runHandler := (runHandler cfg host incomingId).

(** *** Nothing is left unsaved *)

Lemma ensureId_revisions (w : World Store) :
  revision (state (ensureId cfg w).2) = revision (state w)
  /\ savedRevision (state (ensureId cfg w).2) = savedRevision (state w).
Proof. unfold ensureId. by destruct (negb _). Qed.

Lemma shouldWrite_false_clean (mode : PersistMode) (st : State) :
  shouldWrite cfg incomingId mode st = false ->
  savedRevision st = revision st.
Proof.
  unfold shouldWrite, dirty. intros H.
  destruct (Nat.eqb_spec (savedRevision st) (revision st)) as [?|_]; [done|].
  destruct (isNew st); simpl in H.
  - by rewrite orb_true_r in H.
  - done.
Qed.

Lemma persist_saved (mode : PersistMode) (w : World Store) :
  settled (state w) ->
  savedRevision (state (persist mode w)) = revision (state (persist mode w)).
Proof.
  intros Hs. unfold Plugin.persist.
  destruct (committed (state w)) eqn:Hc; [by apply Hs|].
  destruct (destroyed (state w)); [done|].
  destruct (shouldWrite cfg incomingId mode (state w)) eqn:Hw; cbn [negb].
  - destruct (ensureId cfg w) as [i w1]. by destruct (now host (sys w1)).
  - simpl. by apply (shouldWrite_false_clean mode).
Qed.

Lemma persist_settled (mode : PersistMode) (w : World Store) :
  settled (state w) -> settled (state (persist mode w)).
Proof. intros Hs _. by apply persist_saved. Qed.

Lemma runOp_settled (o : Op) (w : World Store) :
  settled (state w) -> settled (state (runOp o w).2).
Proof.
  intros Hs. destruct o; simpl; try done.
  - by destruct (updater _).
  - unfold regenerate. by destruct (destroyed (state w)).
  - unfold destroy. destruct (destroyed (state w)); [done|].
    by apply persist_settled.
  - by apply persist_settled.
Qed.

Lemma runHandler_settled (ops : list Op) (w : World Store) :
  settled (state w) -> settled (state (runHandler ops w).2).
Proof.
  revert w. induction ops as [|o ops IH]; intros w Hs; [done|].
  simpl. pose proof (runOp_settled o w Hs) as H1.
  destruct (runOp o w) as [r w1]. simpl in H1.
  specialize (IH w1 H1). by destruct (runHandler ops w1).
Qed.

Lemma resolve_settled (s0 : Sys Store) :
  settled (state (resolve cfg host incomingId s0)).
Proof.
  unfold settled, resolve. cbn [now].
  destruct (match incomingId with
            | Some i => if truthy i then adapterGet cfg i _ else _
            | None => _
            end) as [[r|] s2]; [done|].
  by destruct (createOnRequest cfg).
Qed.

(** *** What a commit that writes leaves *)


(** *** Handlers that only read and change the data *)




(** *** What [resolve] makes of a request *)

Lemma resolve_lazy_fresh (s0 : Sys Store) :
  createOnRequest cfg = false -> truthyId incomingId = false ->
  resolve cfg host incomingId s0 =
  {| state := {| id := None; data := initialData cfg;
                 expiresAt := (dateNow host (clockReads s0) + ttl cfg)%Z;
                 isNew := true; destroyed := false; revision := 0;
                 savedRevision := 0; committed := false |};
     sys := {| headers := headers s0; store := store s0; calls := calls s0;
               idReads := idReads s0; clockReads := S (clockReads s0) |} |}.
Proof.
  intros Hlazy Hinc. unfold resolve. cbn [now].
  assert (match incomingId with
          | Some i => if truthy i then adapterGet cfg i
                        {| headers := headers s0; store := store s0;
                           calls := calls s0; idReads := idReads s0;
                           clockReads := S (clockReads s0) |}
                      else (None, _)
          | None => (None, _)
          end = (None, {| headers := headers s0; store := store s0;
                          calls := calls s0; idReads := idReads s0;
                          clockReads := S (clockReads s0) |})) as ->.
  { destruct incomingId as [i|]; [|done]. simpl in Hinc. by rewrite Hinc. }
  by rewrite Hinc, Hlazy.
Qed.

Lemma resolve_loaded (i : string) (s0 : Sys Store) (r : StoredSession)
    (st' : Store) :
  incomingId = Some i -> i <> EmptyString ->
  adapter_get (adapter cfg) i (store s0) = (Some r, st') ->
  resolve cfg host incomingId s0 =
  {| state := {| id := Some i; data := Types.data r;
                 expiresAt := Types.expiresAt r;
                 isNew := false; destroyed := false; revision := 0;
                 savedRevision := 0; committed := false |};
     sys := {| headers := headers s0; store := st';
               calls := calls s0 ++ [CallGet i];
               idReads := idReads s0; clockReads := S (clockReads s0) |} |}.
Proof.
  intros -> Hi Hget. unfold resolve. cbn [now].
  assert (truthy i = true) as ->.
  { unfold truthy. by destruct (String.eqb_spec i EmptyString). }
  unfold adapterGet. cbn [store]. by rewrite Hget.
Qed.

(** *** Composition of handlers *)

Lemma runHandler_app (a b : list Op) (w : World Store) :
  (runHandler (a ++ b) w).2 = (runHandler b (runHandler a w).2).2.
Proof.
  revert w. induction a as [|o a IH]; intros w; [done|].
  simpl. destruct (runOp o w) as [r w1]. specialize (IH w1).
  destruct (runHandler (a ++ b) w1), (runHandler a w1). exact IH.
Qed.

Lemma runHandler_cons (o : Op) (ops : list Op) (w : World Store) :
  (runHandler (o :: ops) w).2 = (runHandler ops (runOp o w).2).2.
Proof.
  cbn [Plugin.runHandler]. destruct (runOp o w) as [r w1]. cbn [snd].
  by destruct (runHandler ops w1).
Qed.

(** A handler that reads, makes one call, then reads. *)
Lemma runHandler_around (pre post : list Op) (o : Op) (w : World Store) :
  forallb isRead pre = true -> forallb isRead post = true ->
  (runHandler (pre ++ o :: post) w).2 = (runOp o w).2.
Proof.
  intros Hpre Hpost.
  rewrite runHandler_app, (runHandler_reads cfg host incomingId pre w Hpre).
  rewrite runHandler_cons.
  apply (runHandler_reads cfg host incomingId post _ Hpost).
Qed.

(** *** Calls on a committed, destroyed session *)

Lemma runOp_quiet_fixed (o : Op) (w : World Store) :
  isQuiet o = true -> committed (state w) = true ->
  destroyed (state w) = true -> (runOp o w).2 = w.
Proof.
  intros Hq Hc Hd. destruct o; try discriminate; simpl; try done.
  - unfold destroy. by rewrite Hd.
  - by apply persist_committed.
Qed.

Lemma runHandler_quiet_fixed (ops : list Op) (w : World Store) :
  forallb isQuiet ops = true -> committed (state w) = true ->
  destroyed (state w) = true -> (runHandler ops w).2 = w.
Proof.
  induction ops as [|o ops IH]; intros Hq Hc Hd; [done|].
  simpl in Hq. apply andb_prop in Hq as [Ho Hq].
  rewrite runHandler_cons, (runOp_quiet_fixed o w Ho Hc Hd).
  by apply IH.
Qed.

(** *** The id of a session *)

Lemma persist_keeps_id (mode : PersistMode) (w : World Store) :
  truthyId (id (state w)) = true ->
  id (state (persist mode w)) = id (state w).
Proof.
  intros Hid. unfold Plugin.persist.
  destruct (committed (state w)); [done|].
  destruct (destroyed (state w)); [done|].
  destruct (negb _); [done|].
  unfold ensureId. rewrite Hid. simpl. done.
Qed.

Lemma runOp_keeps_id (o : Op) (w : World Store) :
  isRegenerate o = false -> truthyId (id (state w)) = true ->
  id (state (runOp o w).2) = id (state w).
Proof.
  intros Ho Hid. destruct o; try discriminate; simpl; try done.
  - by destruct (updater _).
  - unfold destroy. destruct (destroyed (state w)); [done|].
    by rewrite persist_keeps_id.
  - by apply persist_keeps_id.
Qed.

Lemma runHandler_keeps_id (ops : list Op) (w : World Store) :
  forallb (fun o => negb (isRegenerate o)) ops = true ->
  truthyId (id (state w)) = true ->
  id (state (runHandler ops w).2) = id (state w).
Proof.
  revert w. induction ops as [|o ops IH]; intros w Hops Hid; [done|].
  simpl in Hops. apply andb_prop in Hops as [Ho Hops].
  apply negb_true_iff in Ho.
  rewrite runHandler_cons.
  pose proof (runOp_keeps_id o w Ho Hid) as H1.
  rewrite IH; [done|done|by rewrite H1].
Qed.

(** *** [save()] on a clean loaded session without rolling *)

(** A session that is loaded, not destroyed and clean. *)
Lemma persist_clean_loaded (mode : PersistMode) (w : World Store) :
  rolling cfg = false -> isNew (state w) = false ->
  destroyed (state w) = false ->
  savedRevision (state w) = revision (state w) ->
  let w' := persist mode w in
  sys w' = sys w /\ isNew (state w') = false
  /\ destroyed (state w') = false
  /\ savedRevision (state w') = revision (state w').
Proof.
  intros Hroll Hnew Hd Hsaved. simpl. unfold Plugin.persist.
  destruct (committed (state w)); [done|]. rewrite Hd.
  unfold shouldWrite, dirty. rewrite Hnew, Hsaved, Hroll, Nat.eqb_refl.
  done.
Qed.

Lemma runHandler_clean_loaded (ops : list Op) (w : World Store) :
  forallb isReadOrSave ops = true ->
  rolling cfg = false -> isNew (state w) = false ->
  destroyed (state w) = false ->
  savedRevision (state w) = revision (state w) ->
  let w' := (runHandler ops w).2 in
  sys w' = sys w /\ isNew (state w') = false
  /\ destroyed (state w') = false
  /\ savedRevision (state w') = revision (state w').
Proof.
  revert w. induction ops as [|o ops IH]; intros w Hops Hroll Hnew Hd Hs;
    [done|].
  simpl in Hops. apply andb_prop in Hops as [Ho Hops].
  cbn zeta. rewrite runHandler_cons.
  assert (sys (runOp o w).2 = sys w /\ isNew (state (runOp o w).2) = false
          /\ destroyed (state (runOp o w).2) = false
          /\ savedRevision (state (runOp o w).2) =
             revision (state (runOp o w).2)) as (H1 & H2 & H3 & H4).
  { destruct o; try discriminate; try done.
    exact (persist_clean_loaded manual w Hroll Hnew Hd Hs). }
  destruct (IH _ Hops Hroll H2 H3 H4) as (I1 & I2 & I3 & I4).
  rewrite I1, H1. done.
Qed.

End Extras.

(** X11.  At the end of every request, whatever the handler did, the
    session is committed and its saved revision is its revision: no change
    is left that a commit has not seen. *)
Theorem request_ends_settled {Store : Type} (cfg : Config Store)
    (host : Host) (incomingId : option string) (ops : list Op)
    (s0 : Sys Store) :
  let w := handleRequest cfg host incomingId ops s0 in
  committed (state w) = true
  /\ savedRevision (state w) = revision (state w).
Proof.
  intros w. subst w. unfold handleRequest, onAfterHandle. split.
  - apply persist_commits.
  - apply persist_saved, runHandler_settled, resolve_settled.
Qed.

(** X12.  With [createOnRequest] on, a request that carries no session id
    and whose handler only reads the session ends with one call on the
    adapter, [set] of the initial data under the generated id with an
    expiry one TTL after the clock reading of the commit, and with one
    more cookie, the live cookie of that id; the session is no longer
    new. *)
Theorem eager_first_request {Store : Type} (cfg : Config Store)
    (host : Host) (incomingId : option string) (s0 : Sys Store)
    (ops : list Op) :
  createOnRequest cfg = true ->
  truthyId incomingId = false ->
  forallb isRead ops = true ->
  let n := clockReads s0 in
  let g := generateId cfg (idReads s0) in
  let newId := if truthy g then g else generateId cfg (S (idReads s0)) in
  let expires := (dateNow host (S n) + ttl cfg)%Z in
  let record :=
    {| Types.data := initialData cfg; Types.expiresAt := expires |} in
  let w := handleRequest cfg host incomingId ops s0 in
  calls (sys w) = calls s0 ++ [CallSet newId record]
  /\ store (sys w) = adapter_set (adapter cfg) newId record (store s0)
  /\ headers (sys w) =
     appendSetCookie (headers s0)
       (sessionCookieAt cfg host newId expires (dateNow host (S (S n))))
  /\ id (state w) = Some newId
  /\ isNew (state w) = false.
Proof.
  intros Heager Hinc Hr n g newId expires record w.
  subst w. unfold handleRequest, onAfterHandle.
  rewrite (runHandler_reads cfg host incomingId ops _ Hr).
  unfold resolve. cbn [now].
  assert (match incomingId with
          | Some i => if truthy i then adapterGet cfg i
                        {| headers := headers s0; store := store s0;
                           calls := calls s0; idReads := idReads s0;
                           clockReads := S (clockReads s0) |}
                      else (None, _)
          | None => (None, _)
          end = (None, {| headers := headers s0; store := store s0;
                          calls := calls s0; idReads := idReads s0;
                          clockReads := S (clockReads s0) |})) as ->.
  { destruct incomingId as [i|]; [|done]. simpl in Hinc. by rewrite Hinc. }
  rewrite Hinc, Heager.
  unfold persist, shouldWrite, ensureId. simpl. rewrite Heager. simpl.
  fold g. subst newId record expires n.
  by destruct (truthy g).
Qed.

Lemma eager_first_request_witness :
  calls (sys (handleRequest (cfg0 true true) host0 None [OGet "k"] sys0)) =
  [CallSet "id0" {| Types.data := ∅; Types.expiresAt := 61001 |}].
Proof.
  exact (proj1 (eager_first_request (cfg0 true true) host0 None sys0
                  [OGet "k"] eq_refl eq_refl eq_refl)).
Defined.

(** X13.  With [rolling] on, a request that carries the id of a stored
    session and whose handler only reads it ends with the stored data
    written back under the same id with an expiry one TTL after the clock
    reading of the commit, and with one more cookie, the live cookie of
    that id; no id is generated. *)
Theorem rolling_refresh_on_read {Store : Type} (cfg : Config Store)
    (host : Host) (i : string) (s0 : Sys Store) (ops : list Op)
    (r : StoredSession) (st' : Store) :
  rolling cfg = true ->
  i <> EmptyString ->
  adapter_get (adapter cfg) i (store s0) = (Some r, st') ->
  forallb isRead ops = true ->
  let n := clockReads s0 in
  let expires := (dateNow host (S n) + ttl cfg)%Z in
  let record := {| Types.data := Types.data r; Types.expiresAt := expires |} in
  let w := handleRequest cfg host (Some i) ops s0 in
  calls (sys w) = calls s0 ++ [CallGet i; CallSet i record]
  /\ store (sys w) = adapter_set (adapter cfg) i record st'
  /\ headers (sys w) =
     appendSetCookie (headers s0)
       (sessionCookieAt cfg host i expires (dateNow host (S (S n))))
  /\ idReads (sys w) = idReads s0
  /\ id (state w) = Some i.
Proof.
  intros Hroll Hi Hget Hr n expires record w.
  assert (truthy i = true) as Ht.
  { unfold truthy. by destruct (String.eqb_spec i EmptyString). }
  subst w. unfold handleRequest, onAfterHandle.
  rewrite (runHandler_reads cfg host (Some i) ops _ Hr).
  unfold resolve. cbn [now]. rewrite Ht. unfold adapterGet. cbn [store].
  rewrite Hget.
  unfold persist, shouldWrite, ensureId. simpl. rewrite Hroll, ?Ht. simpl.
  rewrite ?Ht. simpl. rewrite <- ?app_assoc. done.
Qed.

Lemma rolling_refresh_on_read_witness :
  calls (sys (handleRequest (cfg0 false true) host0 (Some "id0") [OGet "k"]
                sys1)) =
  [CallGet "id0";
   CallSet "id0" {| Types.data := ∅; Types.expiresAt := 61011 |}].
Proof.
  exact (proj1 (rolling_refresh_on_read (cfg0 false true) host0 "id0" sys1
                  [OGet "k"]
                  {| Types.data := ∅; Types.expiresAt := 61001 |}
                  (adapter_get (adapter (cfg0 false true)) "id0"
                     (store sys1)).2
                  eq_refl ltac:(discriminate) eq_refl eq_refl)).
Defined.





(** X16.  No call of a handler other than [regenerate()], and no commit,
    changes the id of a session that has one: the session ends the request
    with the id it had. *)
Theorem session_id_is_stable {Store : Type} (cfg : Config Store)
    (host : Host) (incomingId : option string) (ops : list Op)
    (w : World Store) :
  forallb (fun o => negb (isRegenerate o)) ops = true ->
  truthyId (id (state w)) = true ->
  id (state (onAfterHandle cfg host incomingId
               (runHandler cfg host incomingId ops w).2)) = id (state w).
Proof.
  intros Hops Hid.
  pose proof (runHandler_keeps_id cfg host incomingId ops w Hops Hid) as H.
  unfold onAfterHandle. rewrite persist_keeps_id; [exact H|].
  by rewrite H.
Qed.

Lemma session_id_is_stable_witness :
  id (state (onAfterHandle (cfg0 true true) host0 None
               (runHandler (cfg0 true true) host0 None
                  [OSet "k" JNull; OSave; ODestroy] eagerWorld).2)) =
  id (state eagerWorld).
Proof.
  apply (session_id_is_stable (cfg0 true true) host0 None
           [OSet "k" JNull; OSave; ODestroy] eagerWorld); reflexivity.
Defined.

(** X17.  A request that carries the id of a stored session and whose
    handler reads, calls [destroy()], then makes only reads, [save()] or
    [destroy()] again, ends with exactly one [adapter.delete] of that id
    after the [adapter.get], and one more cookie, the clearing cookie; the
    end-of-request commit adds nothing. *)
Theorem logout_request {Store : Type} (cfg : Config Store) (host : Host)
    (i : string) (s0 : Sys Store) (pre post : list Op) (r : StoredSession)
    (st' : Store) :
  i <> EmptyString ->
  adapter_get (adapter cfg) i (store s0) = (Some r, st') ->
  forallb isRead pre = true ->
  forallb isQuiet post = true ->
  let w := handleRequest cfg host (Some i) (pre ++ ODestroy :: post) s0 in
  calls (sys w) = calls s0 ++ [CallGet i; CallDelete i]
  /\ store (sys w) = adapter_delete (adapter cfg) i st'
  /\ headers (sys w) =
     appendSetCookie (headers s0)
       (expiredCookieAt cfg host (dateNow host (S (clockReads s0))))
  /\ destroyed (state w) = true.
Proof.
  intros Hi Hget Hpre Hpost w.
  assert (truthy i = true) as Ht.
  { unfold truthy. by destruct (String.eqb_spec i EmptyString). }
  subst w. unfold handleRequest, onAfterHandle.
  rewrite runHandler_app, (runHandler_reads cfg host (Some i) pre _ Hpre).
  rewrite runHandler_cons.
  rewrite (resolve_loaded cfg host (Some i) i s0 r st' eq_refl Hi Hget).
  cbn [runOp snd]. unfold destroy. cbn [state destroyed].
  set (wd := persist cfg host (Some i) manual _).
  assert (committed (state wd) = true) as Hc by apply persist_commits.
  assert (destroyed (state wd) = true) as Hd
    by (unfold wd; by rewrite persist_destroyed).
  rewrite (runHandler_quiet_fixed cfg host (Some i) post wd Hpost Hc Hd).
  rewrite (persist_committed cfg host (Some i) auto wd Hc).
  split; [|split; [|split; [|exact Hd]]];
    unfold wd, persist; simpl; rewrite Ht; simpl;
    rewrite <- ?app_assoc; done.
Qed.

Lemma logout_request_witness :
  calls (sys (handleRequest (cfg0 true true) host0 (Some "id0")
                ([OGet "k"] ++ ODestroy :: [OSave]) sys1)) =
  [CallGet "id0"; CallDelete "id0"].
Proof.
  exact (proj1 (logout_request (cfg0 true true) host0 "id0" sys1
                  [OGet "k"] [OSave]
                  {| Types.data := ∅; Types.expiresAt := 61001 |}
                  (adapter_get (adapter (cfg0 true true)) "id0"
                     (store sys1)).2
                  ltac:(discriminate) eq_refl eq_refl eq_refl)).
Defined.

(** X18.  A request that carries the id of a stored session and whose
    handler reads, calls [regenerate()] once and reads, with a generated
    id that is non-empty and differs from the old one, ends with the old
    record deleted and then the same data written under the new id, and
    with one more cookie, the live cookie of the new id. *)
Theorem regenerate_request {Store : Type} (cfg : Config Store) (host : Host)
    (i : string) (s0 : Sys Store) (pre post : list Op) (r : StoredSession)
    (st' : Store) :
  i <> EmptyString ->
  adapter_get (adapter cfg) i (store s0) = (Some r, st') ->
  forallb isRead pre = true ->
  forallb isRead post = true ->
  generateId cfg (idReads s0) <> EmptyString ->
  generateId cfg (idReads s0) <> i ->
  let g := generateId cfg (idReads s0) in
  let n := clockReads s0 in
  let expires := (dateNow host (S n) + ttl cfg)%Z in
  let record := {| Types.data := Types.data r; Types.expiresAt := expires |} in
  let w := handleRequest cfg host (Some i) (pre ++ ORegenerate :: post) s0 in
  calls (sys w) = calls s0 ++ [CallGet i; CallDelete i; CallSet g record]
  /\ store (sys w) =
     adapter_set (adapter cfg) g record (adapter_delete (adapter cfg) i st')
  /\ headers (sys w) =
     appendSetCookie (headers s0)
       (sessionCookieAt cfg host g expires (dateNow host (S (S n))))
  /\ id (state w) = Some g.
Proof.
  intros Hi Hget Hpre Hpost Hg Hgi g n expires record w.
  assert (truthy i = true) as Ht.
  { unfold truthy. by destruct (String.eqb_spec i EmptyString). }
  assert (truthy g = true) as Htg.
  { unfold truthy. by destruct (String.eqb_spec g EmptyString). }
  assert (String.eqb i g = false) as Hne.
  { destruct (String.eqb_spec i g) as [Heq|]; [|done]. by subst g. }
  subst w. unfold handleRequest, onAfterHandle.
  rewrite (runHandler_around cfg host (Some i) pre post ORegenerate _
             Hpre Hpost).
  rewrite (resolve_loaded cfg host (Some i) i s0 r st' eq_refl Hi Hget).
  cbn [runOp]. unfold regenerate. cbn [state destroyed newId sys idReads id].
  fold g. rewrite Hne, Ht. cbn [negb andb snd].
  unfold persist, shouldWrite, ensureId. simpl. rewrite ?Htg. simpl.
  rewrite ?Htg. simpl. rewrite ?orb_true_r. simpl.
  rewrite <- ?app_assoc. simpl. done.
Qed.

Lemma regenerate_request_witness :
  calls (sys (handleRequest (cfg0 true true) host0 (Some "id0")
                ([] ++ ORegenerate :: []) sys1)) =
  [CallGet "id0"; CallDelete "id0";
   CallSet "id1" {| Types.data := ∅; Types.expiresAt := 61011 |}].
Proof.
  exact (proj1 (regenerate_request (cfg0 true true) host0 "id0" sys1 [] []
                  {| Types.data := ∅; Types.expiresAt := 61001 |}
                  (adapter_get (adapter (cfg0 true true)) "id0"
                     (store sys1)).2
                  ltac:(discriminate) eq_refl eq_refl eq_refl
                  ltac:(discriminate) ltac:(discriminate))).
Defined.

(** X19.  With [createOnRequest] off, a request that carries no session id
    and whose handler reads, calls [save()] and reads, ends with the
    initial data stored under a generated id and the live cookie of that
    id, although nothing was mutated; the end-of-request commit adds
    nothing. *)
Theorem save_creates_lazy_session {Store : Type} (cfg : Config Store)
    (host : Host) (incomingId : option string) (s0 : Sys Store)
    (pre post : list Op) :
  createOnRequest cfg = false ->
  truthyId incomingId = false ->
  forallb isRead pre = true ->
  forallb isRead post = true ->
  let g := generateId cfg (idReads s0) in
  let n := clockReads s0 in
  let expires := (dateNow host (S n) + ttl cfg)%Z in
  let record :=
    {| Types.data := initialData cfg; Types.expiresAt := expires |} in
  let w := handleRequest cfg host incomingId (pre ++ OSave :: post) s0 in
  calls (sys w) = calls s0 ++ [CallSet g record]
  /\ store (sys w) = adapter_set (adapter cfg) g record (store s0)
  /\ headers (sys w) =
     appendSetCookie (headers s0)
       (sessionCookieAt cfg host g expires (dateNow host (S (S n))))
  /\ id (state w) = Some g
  /\ isNew (state w) = false.
Proof.
  intros Hlazy Hinc Hpre Hpost g n expires record w.
  subst w. unfold handleRequest, onAfterHandle.
  rewrite (runHandler_around cfg host incomingId pre post OSave _ Hpre Hpost).
  rewrite (resolve_lazy_fresh cfg host incomingId s0 Hlazy Hinc).
  cbn [runOp snd]. unfold save.
  set (ws := persist cfg host incomingId manual _).
  rewrite (persist_committed cfg host incomingId auto ws)
    by apply persist_commits.
  unfold ws, persist, shouldWrite, ensureId. simpl.
  rewrite Hlazy. simpl. done.
Qed.

Lemma save_creates_lazy_session_witness :
  calls (sys (handleRequest (cfg0 false true) host0 None
                ([] ++ OSave :: [OGet "k"]) sys0)) =
  [CallSet "id0" {| Types.data := ∅; Types.expiresAt := 61001 |}].
Proof.
  exact (proj1 (save_creates_lazy_session (cfg0 false true) host0 None sys0
                  [] [OGet "k"] eq_refl eq_refl eq_refl eq_refl)).
Defined.

(** X20.  With [rolling] off, a request that carries the id of a stored
    session and whose handler only reads and calls [save()] makes no call
    of [adapter.set] and appends no cookie: [save()] does not write a
    loaded session that has not been mutated. *)
Theorem save_of_clean_loaded_session_skips {Store : Type}
    (cfg : Config Store) (host : Host) (i : string) (s0 : Sys Store)
    (ops : list Op) (r : StoredSession) (st' : Store) :
  rolling cfg = false ->
  i <> EmptyString ->
  adapter_get (adapter cfg) i (store s0) = (Some r, st') ->
  forallb isReadOrSave ops = true ->
  let w := handleRequest cfg host (Some i) ops s0 in
  calls (sys w) = calls s0 ++ [CallGet i]
  /\ store (sys w) = st'
  /\ headers (sys w) = headers s0.
Proof.
  intros Hroll Hi Hget Hops w.
  subst w. unfold handleRequest, onAfterHandle.
  pose proof (resolve_loaded cfg host (Some i) i s0 r st' eq_refl Hi Hget)
    as Hres.
  destruct (runHandler_clean_loaded cfg host (Some i) ops
              (resolve cfg host (Some i) s0) Hops Hroll)
    as (H1 & H2 & H3 & H4); try (by rewrite Hres).
  destruct (persist_clean_loaded cfg host (Some i) auto _ Hroll H2 H3 H4)
    as (H5 & _).
  rewrite H5, H1, Hres. done.
Qed.

Lemma save_of_clean_loaded_session_skips_witness :
  calls (sys (handleRequest (cfg0 true false) host0 (Some "id0")
                [OGet "k"; OSave] sys1)) = [CallGet "id0"].
Proof.
  exact (proj1 (save_of_clean_loaded_session_skips (cfg0 true false) host0
                  "id0" sys1 [OGet "k"; OSave]
                  {| Types.data := ∅; Types.expiresAt := 61001 |}
                  (adapter_get (adapter (cfg0 true false)) "id0"
                     (store sys1)).2
                  eq_refl ltac:(discriminate) eq_refl eq_refl)).
Defined.

(** X21.  With the memory adapter, the record a commit has written under a
    non-empty id is what the next request carrying that id resolves, as
    long as the adapter's clock is before the record's expiry: the session
    starts with the record's data and expiry, is not new, keeps the id, and
    no clearing cookie is appended. *)
Theorem written_session_is_resolved (t : Z)
    (cfg : Config Memory.MemoryStore) (host : Host) (g : string)
    (record : StoredSession) (st : Memory.MemoryStore)
    (s1 : Sys Memory.MemoryStore) :
  adapter cfg = Memory.createMemorySessionAdapter t ->
  g <> EmptyString ->
  (t < Types.expiresAt record)%Z ->
  store s1 = adapter_set (adapter cfg) g record st ->
  let w := resolve cfg host (Some g) s1 in
  data (state w) = Types.data record
  /\ expiresAt (state w) = Types.expiresAt record
  /\ isNew (state w) = false
  /\ id (state w) = Some g
  /\ headers (sys w) = headers s1.
Proof.
  intros Hadapter Hg Ht Hstore w.
  assert ((adapter_get (adapter cfg) g (store s1)).1 = Some record) as Hget.
  { rewrite Hstore, Hadapter.
    destruct (MemoryExtras.adapter_set_stores t g record st)
      as ((r0 & so0 & Hid & Hk & He) & _).
    rewrite (MemoryExtras.adapter_get_kept t g _ r0 so0 _ Hid Hk), He.
    destruct (Z.leb_spec (Types.expiresAt record) t); [lia|].
    by destruct record. }
  subst w.
  rewrite (resolve_loaded cfg host (Some g) g s1 record
             (adapter_get (adapter cfg) g (store s1)).2 eq_refl Hg).
  - done.
  - rewrite <- Hget. by destruct (adapter_get (adapter cfg) g (store s1)).
Qed.

Lemma written_session_is_resolved_witness :
  data (state (resolve (cfg0 false true) host0 (Some "id0") sys1)) = ∅
  /\ isNew (state (resolve (cfg0 false true) host0 (Some "id0") sys1))
     = false.
Proof.
  pose proof (written_session_is_resolved 1000 (cfg0 false true) host0 "id0"
                {| Types.data := ∅; Types.expiresAt := 61001 |}
                Memory.emptyStore sys1 eq_refl ltac:(discriminate)
                ltac:(vm_compute; reflexivity) eq_refl)
    as (H1 & _ & H3 & _).
  split; [exact H1|exact H3].
Defined.

End PluginExtras.

(** ** A request with a stale id *)

Module StaleIdFacts.

Import JsString Types Plugin PluginViews PluginFacts PluginExtras
  PluginExamples.





End StaleIdFacts.
